(** * netx: address resolution for Listen/ListenPacket and the Server loop

    A shallow embedding of the Go package [netx]: the resolver
    [resolveListen] with its two entry points [Listen] and [ListenPacket],
    and the [Server] with its accept loop and per-connection goroutines.

    Go strings are byte strings and are modelled by [string]; Go [int]
    indices are modelled by [Z] (with [-1] for "not found", as the Go
    library returns it); multiple return values are modelled by tuples;
    a Go [error] is an [option error] whose [None] is [nil]. *)

From Stdlib Require Import Ascii String ZArith Lia.
From stdpp Require Import base list strings.

Local Open Scope Z_scope.

(** ** Go's [strings] package and slicing *)

Module strings.

Definition len (s : string) : Z := Z.of_nat (String.length s).

(** [strings.HasPrefix(s, prefix)] *)
Fixpoint HasPrefix (s prefix : string) {struct prefix} : bool :=
  match prefix, s with
  | EmptyString, _ => true
  | String _ _, EmptyString => false
  | String c p, String d s' => Ascii.eqb c d && HasPrefix s' p
  end.

(** [strings.Index(s, substr)]: index of the first instance of [substr]
    in [s], or [-1]. *)
Fixpoint Index (s substr : string) : Z :=
  if HasPrefix s substr then 0
  else match s with
       | EmptyString => -1
       | String _ s' =>
           let i := Index s' substr in
           if i <? 0 then -1 else i + 1
       end.

(** [bytealg.IndexByteString(s, c)] *)
Fixpoint IndexByte (s : string) (c : ascii) : Z :=
  match s with
  | EmptyString => -1
  | String d s' =>
      if Ascii.eqb d c then 0
      else let i := IndexByte s' c in
           if i <? 0 then -1 else i + 1
  end.

(** [bytealg.LastIndexByteString(s, c)] *)
Fixpoint LastIndexByte (s : string) (c : ascii) : Z :=
  match s with
  | EmptyString => -1
  | String d s' =>
      let i := LastIndexByte s' c in
      if 0 <=? i then i + 1
      else if Ascii.eqb d c then 0 else -1
  end.

Fixpoint drop (n : nat) (s : string) : string :=
  match n, s with
  | O, _ => s
  | S _, EmptyString => EmptyString
  | S n', String _ s' => drop n' s'
  end.

Fixpoint take (n : nat) (s : string) : string :=
  match n, s with
  | O, _ => EmptyString
  | S _, EmptyString => EmptyString
  | S n', String c s' => String c (take n' s')
  end.

(** The slice expressions [s[i:]], [s[:j]] and [s[i:j]].  Go panics when
    an index is out of range; every use below is in range. *)
Definition sliceFrom (s : string) (i : Z) : string := drop (Z.to_nat i) s.
Definition sliceTo (s : string) (j : Z) : string := take (Z.to_nat j) s.
Definition slice (s : string) (i j : Z) : string :=
  take (Z.to_nat (j - i)) (drop (Z.to_nat i) s).

(** [s[i]] *)
Definition byteAt (s : string) (i : Z) : option ascii :=
  String.get (Z.to_nat i) s.

Definition byteIs (s : string) (i : Z) (c : ascii) : bool :=
  match byteAt s i with
  | Some d => Ascii.eqb d c
  | None => false
  end.

End strings.

(** ** Errors *)

Inductive error : Type :=
  | errorString (s : string)            (* errors.New(s) *)
  | AddrError (Err Addr : string)       (* *net.AddrError *)
  | OpError (Op Net : string) (Err : error)   (* *net.OpError *)
  | SyscallError (msg : string).        (* anything the OS reports *)

Definition errInvalidInterfaceName : error :=
  OpError "route" "ip+net" (errorString "invalid network interface name").
Definition errNoSuchInterface : error :=
  OpError "route" "ip+net" (errorString "no such network interface").

(** ** Go's [net] package: the pure helpers *)

Module net.
Import strings.

Definition missingPort : string := "missing port in address".
Definition tooManyColons : string := "too many colons in address".

Definition addrErr (addr why : string) : string * string * option error :=
  ("", "", Some (AddrError why addr)).

(** [net.SplitHostPort(hostport)] (Go's net/ipsock.go) *)
Definition SplitHostPort (hostport : string) : string * string * option error :=
  let i := LastIndexByte hostport ":" in
  if i <? 0 then addrErr hostport missingPort
  else
    let finish (host : string) (j k : Z) :=
      if 0 <=? IndexByte (sliceFrom hostport j) "[" then
        addrErr hostport "unexpected '[' in address"
      else if 0 <=? IndexByte (sliceFrom hostport k) "]" then
        addrErr hostport "unexpected ']' in address"
      else (host, sliceFrom hostport (i + 1), None) in
    if byteIs hostport 0 "[" then
      let end_ := IndexByte hostport "]" in
      if end_ <? 0 then addrErr hostport "missing ']' in address"
      else if end_ + 1 =? len hostport then addrErr hostport missingPort
      else if end_ + 1 =? i then finish (slice hostport 1 end_) 1 (end_ + 1)
      else if byteIs hostport (end_ + 1) ":" then addrErr hostport tooManyColons
      else addrErr hostport missingPort
    else
      let host := sliceTo hostport i in
      if 0 <=? IndexByte host ":" then addrErr hostport tooManyColons
      else finish host 0 0.

(** [net.JoinHostPort(host, port)] (Go's net/ipsock.go) *)
Definition JoinHostPort (host port : string) : string :=
  if 0 <=? IndexByte host ":" then "[" +:+ host +:+ "]:" +:+ port
  else host +:+ ":" +:+ port.

End net.

(** ** IP literals *)

(** Modelled from the spec: [IsIP] is called by [resolveListen] but its
    definition is not part of the sources.  The specification calls the
    strings it accepts "IP literals": dotted-quad IPv4 addresses and
    colon-separated hexadecimal IPv6 addresses, with at most one [::] and an
    optional trailing dotted quad.  The theorems below take [IsIP] as a
    parameter; this definition instantiates it on concrete inputs. *)
Module ip.
Import strings.

Definition code (c : ascii) : Z := Z.of_nat (nat_of_ascii c).

Definition isDigit (c : ascii) : bool := (48 <=? code c) && (code c <=? 57).

Definition isHex (c : ascii) : bool :=
  isDigit c
  || ((97 <=? code c) && (code c <=? 102))
  || ((65 <=? code c) && (code c <=? 70)).

Fixpoint all (p : ascii -> bool) (s : string) : bool :=
  match s with
  | EmptyString => true
  | String c s' => p c && all p s'
  end.

(** The fields of [s] between occurrences of [sep]; always non-empty. *)
Fixpoint fields (sep : ascii) (s : string) : list string :=
  match s with
  | EmptyString => [EmptyString]
  | String c s' =>
      if Ascii.eqb c sep then EmptyString :: fields sep s'
      else match fields sep s' with
           | f :: fs => String c f :: fs
           | [] => [String c EmptyString]
           end
  end.

Fixpoint decimal (acc : Z) (s : string) : Z :=
  match s with
  | EmptyString => acc
  | String c s' => decimal (10 * acc + (code c - 48)) s'
  end.

Definition decField (f : string) : bool :=
  (1 <=? len f) && (len f <=? 3) && all isDigit f
  && (negb (HasPrefix f "0") || (len f =? 1))
  && (decimal 0 f <=? 255).

Definition IsIPv4 (s : string) : bool :=
  match fields "." s with
  | [a; b; c; d] => decField a && decField b && decField c && decField d
  | _ => false
  end.

Definition hexField (f : string) : bool :=
  (1 <=? len f) && (len f <=? 4) && all isHex f.

(** Number of 16-bit groups the fields stand for, [None] when a field is
    malformed; with [v4], the last field may be a dotted quad. *)
Fixpoint groups (v4 : bool) (fs : list string) : option Z :=
  match fs with
  | [] => Some 0
  | f :: rest =>
      match groups v4 rest with
      | None => None
      | Some n =>
          if hexField f then Some (n + 1)
          else if v4 && IsIPv4 f && (length rest =? 0)%nat then Some 2
          else None
      end
  end.

Definition groupsOf (v4 : bool) (s : string) : option Z :=
  if len s =? 0 then Some 0 else groups v4 (fields ":" s).

Definition IsIPv6 (s : string) : bool :=
  let e := Index s "::" in
  if 0 <=? e then
    match groupsOf false (sliceTo s e), groupsOf true (sliceFrom s (e + 2)) with
    | Some n, Some m => n + m <=? 7
    | _, _ => false
    end
  else
    match groups true (fields ":" s) with
    | Some n => n =? 8
    | None => false
    end.

(** Modelled from the spec: the missing [IsIP], true on IP literals. *)
Definition IsIP (s : string) : bool := IsIPv4 s || IsIPv6 s.

End ip.

(** ** The operating system as seen by the resolver *)

(** A network interface: its name and what [ifi.Addrs()] returns, each
    address already rendered by [a.String()]. *)
Record Interface : Type := {
  Name : string;
  Addrs : list string * option error;
}.

(** Socket handles returned by [net.Listen] and [net.ListenPacket]. *)
Record Listener : Type := { lfd : Z }.
Record PacketConn : Type := { pfd : Z }.

Record OS : Type := {
  (** the interface table read by [net.InterfaceByName] *)
  interfaceTable : list Interface * option error;
  (** [net.Listen(network, address)] *)
  netListen : string -> string -> option Listener * option error;
  (** [net.ListenPacket(network, address)] *)
  netListenPacket : string -> string -> option PacketConn * option error;
}.

(** [net.InterfaceByName(name)] (Go's net/interface.go): the interface
    with a nil error, or a nil pointer with the error; a failure to read
    the interface table is wrapped like the two errors of the function
    itself. *)
Definition InterfaceByName (os : OS) (name : string) : Interface + error :=
  if strings.len name =? 0 then inr errInvalidInterfaceName
  else
    match interfaceTable os with
    | (_, Some err) => inr (OpError "route" "ip+net" err)
    | (ift, None) =>
        match find (fun ifi => String.eqb name (Name ifi)) ift with
        | Some ifi => inl ifi
        | None => inr errNoSuchInterface
        end
    end.

(** ** listen.go *)

Section Resolver.
Import strings.

(** [IsIP] is defined elsewhere in the package. *)
Variable IsIP : string -> bool.
Variable os : OS.

(** Lines 78-83: the first protocol of the list that prefixes the address
    fixes the network and is cut off the address. *)
Fixpoint matchProtocol (address : string) (protocols : list string) : string * string :=
  match protocols with
  | [] => (""%string, address)
  | proto :: rest =>
      if HasPrefix address (proto +:+ "://") then
        (proto, sliceFrom address (len proto + 3))
      else matchProtocol address rest
  end.

(** Lines 91-101: host and port of the address. *)
Definition hostPort (address : string) : string * string :=
  match net.SplitHostPort address with
  | (host, port, None) => (host, port)
  | (_, _, Some _) =>
      if HasPrefix address ":" then (""%string, sliceFrom address 1)
      else (address, ""%string)
  end.

Definition orDefault (network dflt : string) : string :=
  if len network =? 0 then dflt else network.

(** Lines 120-126 *)
Definition joinPort (port : string) (s : string) : string :=
  if negb (len port =? 0) then net.JoinHostPort s port else s.

(** Lines 103-142, with the network and address left by the scheme
    step.  The assignment [ifi, err = net.InterfaceByName(host)] writes the
    named result [err], and the last branch returns without clearing it. *)
Definition classify (network address : string)
    (defaultProtoNetwork defaultProtoUnix : string)
    : string * list string * option error :=
  let '(host, port) := hostPort address in
  if IsIP host then
    (orDefault network defaultProtoNetwork, [address], None)
  else
    match InterfaceByName os host with
    | inl ifi =>
        match Addrs ifi with
        | (_, Some err) => (network, [], Some err)
        | (ifa, None) =>
            (orDefault network defaultProtoNetwork, map (joinPort port) ifa, None)
        end
    | inr err =>
        (orDefault network defaultProtoUnix, [address], Some err)
    end.

(** Lines 77-89: an address with [://] must start with one of the
    protocols. *)
Definition schemeStep (address : string) (protocols : list string)
    : string * string * option error :=
  let off := Index address "://" in
  if 0 <=? off then
    let '(network, address') := matchProtocol address protocols in
    if len network =? 0 then
      (network, address',
       Some (errorString ("unsupported protocol: " +:+ sliceTo address' off)))
    else (network, address', None)
  else (""%string, address, None).

Definition resolveListen (address : string)
    (defaultProtoNetwork defaultProtoUnix : string) (protocols : list string)
    : string * list string * option error :=
  match schemeStep address protocols with
  | (network, _, Some err) => (network, [], Some err)
  | (network, address', None) =>
      classify network address' defaultProtoNetwork defaultProtoUnix
  end.

(** The loop of lines 35-39 and 63-67: every iteration overwrites both
    results and the loop stops at the first [nil] error.  The third
    component lists the addresses handed to [open], in call order. *)
Fixpoint tryEach {L : Type} (open : string -> string -> option L * option error)
    (network : string) (addrs : list string)
    (lstn : option L) (err : option error)
    : option L * option error * list string :=
  match addrs with
  | [] => (lstn, err, [])
  | address :: rest =>
      let '(lstn', err') := open network address in
      match err' with
      | None => (lstn', err', [address])
      | Some _ =>
          let '(l, e, calls) := tryEach open network rest lstn' err' in
          (l, e, address :: calls)
      end
  end.

Definition streamProtocols : list string :=
  ["tcp4"; "tcp6"; "tcp"; "unixpacket"; "unix"]%string.
Definition packetProtocols : list string :=
  ["udp4"; "udp6"; "udp"; "ip4"; "ip6"; "ip"; "unixdgram"]%string.

Definition ListenTraced (address : string)
    : option Listener * option error * list string :=
  match resolveListen address "tcp" "unix" streamProtocols with
  | (_, _, Some err) => (None, Some err, [])
  | (network, addrs, None) => tryEach (netListen os) network addrs None None
  end.

Definition ListenPacketTraced (address : string)
    : option PacketConn * option error * list string :=
  match resolveListen address "udp" "unixdgram" packetProtocols with
  | (_, _, Some err) => (None, Some err, [])
  | (network, addrs, None) => tryEach (netListenPacket os) network addrs None None
  end.

(** [Listen(address)] and [ListenPacket(address)] *)
Definition Listen (address : string) : option Listener * option error :=
  fst (ListenTraced address).
Definition ListenPacket (address : string) : option PacketConn * option error :=
  fst (ListenPacketTraced address).

End Resolver.

(** ** server.go: handlers *)

(** A [net.Conn]: its identity and [conn.RemoteAddr().String()]. *)
Record Conn : Type := { connId : Z; RemoteAddr : string }.

(** What a handler invocation does: it returns, or it panics with a value
    (rendered with [%v]). *)
Inductive Outcome : Type :=
  | Returns
  | Panics (v : string).

(** The [context.Context] handed to handlers, observed through [Done()]:
    [true] once [cancel()] has run. *)
Definition Context : Type := bool.

(** [type Handler interface { ServeConn(conn net.Conn, context context.Context) }] *)
Record Handler : Type := { ServeConn : Conn -> Context -> Outcome }.

(** [type HandlerFunc func(net.Conn)] and its method
    [func (f HandlerFunc) ServeConn(conn net.Conn) { f(conn) }] *)
Definition HandlerFunc : Type := Conn -> Outcome.
Definition HandlerFunc_ServeConn (f : HandlerFunc) (conn : Conn) : Outcome := f conn.

(** Method sets, to decide whether a type satisfies an interface: every
    method of the interface must be a method of the type, with the identical
    signature. *)
Inductive GoType : Type :=
  | net_Conn
  | context_Context.

Record Method : Type := {
  mname : string;
  mparams : list GoType;
  mresults : list GoType;
}.

Definition GoType_eqb (a b : GoType) : bool :=
  match a, b with
  | net_Conn, net_Conn | context_Context, context_Context => true
  | _, _ => false
  end.

Fixpoint types_eqb (a b : list GoType) : bool :=
  match a, b with
  | [], [] => true
  | x :: a', y :: b' => GoType_eqb x y && types_eqb a' b'
  | _, _ => false
  end.

Definition Method_eqb (m m' : Method) : bool :=
  String.eqb (mname m) (mname m')
  && types_eqb (mparams m) (mparams m')
  && types_eqb (mresults m) (mresults m').

Definition implements (methods iface : list Method) : bool :=
  forallb (fun m => existsb (Method_eqb m) methods) iface.

(** Lines 38-40 *)
Definition Handler_interface : list Method :=
  [ {| mname := "ServeConn"; mparams := [net_Conn; context_Context]; mresults := [] |} ].

(** Lines 44-49 *)
Definition HandlerFunc_methods : list Method :=
  [ {| mname := "ServeConn"; mparams := [net_Conn]; mresults := [] |} ].

(** ** The accept loop *)

(** What one call of the listener's own [Accept] yields. *)
Inductive RawAccept : Type :=
  | AcceptConn (c : Conn)
  | AcceptTemporary (e : error)
  | AcceptFatal (e : error).

(** Modelled from the spec: [Accept(lstn, errf)] is called at server.go:90
    but its definition is not part of the sources.  Section 4.3 of the
    specification: every raw accept error is transient or fatal; on a
    transient error the loop calls [errf(err, currentBackoff)], sleeps for
    [currentBackoff], then doubles it, bounded above by the ceiling of one
    second; after a successful accept the backoff is back at its floor of
    five milliseconds; a fatal error is returned at once.  Durations are
    [time.Duration] values, in nanoseconds. *)
Module AcceptLoop.

Definition floor : Z := 5 * 1000000.
Definition ceiling : Z := 1000000000.

Inductive Event : Type :=
  | Report (e : error) (backoff : Z)    (* errf(e, backoff) *)
  | Sleep (d : Z).                      (* time.Sleep(d) *)

Inductive Attempt : Type :=
  | Retry (events : list Event) (current' : Z)
  | Accepted (c : Conn) (current' : Z)
  | Failed (e : error).

(** Modelled from the spec: one iteration of the missing [Accept], one raw
    accept and the reaction to it (section 4.3). *)
Definition attempt (current : Z) (r : RawAccept) : Attempt :=
  match r with
  | AcceptConn c => Accepted c floor
  | AcceptTemporary e =>
      Retry [Report e current; Sleep current] (Z.min (2 * current) ceiling)
  | AcceptFatal e => Failed e
  end.

(** Modelled from the spec: the loop of the missing [Accept] over the
    outcomes the listener is going to produce (section 4.3).  The
    result is the connection or the fatal error ([None] when the listener
    has produced nothing more and the loop is still blocked), the backoff
    afterwards, the outcomes not consumed and the events in order. *)
Fixpoint loop (current : Z) (incoming : list RawAccept)
    : option (Conn + error) * Z * list RawAccept * list Event :=
  match incoming with
  | [] => (None, current, [], [])
  | r :: rest =>
      match attempt current r with
      | Accepted c current' => (Some (inl c), current', rest, [])
      | Failed e => (Some (inr e), current, rest, [])
      | Retry evs current' =>
          let '(res, cur, rest', evs') := loop current' rest in
          (res, cur, rest', evs ++ evs')
      end
  end.

(** Modelled from the spec: the missing [Accept(lstn, errf)]; every call
    starts at the floor. *)
Definition Accept (incoming : list RawAccept) := loop floor incoming.

(** The backoff in force at the [i]-th consecutive failure. *)
Definition backoffAt (i : nat) : Z := Z.min (floor * 2 ^ Z.of_nat i) ceiling.

End AcceptLoop.

(** ** server.go: the Server *)

(** A [*log.Logger], by name. *)
Definition Logger : Type := string.

Record Server : Type := {
  Addr : string;
  Server_Handler : Handler;
  ErrorLog : option Logger;
}.

(** Where a message is printed: the process-wide [log] package or the
    server's own logger. *)
Inductive Sink : Type :=
  | StdLog
  | Custom (l : Logger).

(** The formatted messages of lines 84 and 115. *)
Inductive Message : Type :=
  | AcceptErrorMsg (err : error) (backoff : Z)
      (* "Accept error: %v; retrying in %v" *)
  | PanicServingMsg (addr : string) (v : string) (stack : string).
      (* "panic serving %v: %v\n%s" *)

(** Program points of the goroutine running [Serve]: in the loop of lines
    87-96 with the backoff of the accept loop, then the deferred calls in the
    order they run on return, then returned. *)
Inductive MainPC : Type :=
  | MAccept (backoff : Z)       (* line 90 *)
  | MCancel (err : error)       (* line 81, deferred cancel() *)
  | MWait (err : error)         (* line 78, deferred join.Wait() *)
  | MClose (err : error)        (* line 75, deferred lstn.Close() *)
  | MReturned (err : error).

(** Program points of a goroutine running [serve]: the handler, then the
    deferred calls in the order they run, carrying the panic in flight. *)
Inductive TaskPC : Type :=
  | THandler                           (* line 107 *)
  | TConnClose (p : option string)     (* line 106, deferred conn.Close() *)
  | TJoinDone (p : option string)      (* line 105, deferred join.Done() *)
  | TRecover (p : option string)       (* lines 100-104 *)
  | TExited.

Record Task : Type := { conn : Conn; pc : TaskPC }.

Record State : Type := {
  main : MainPC;
  incoming : list RawAccept;       (* what the listener will yield *)
  lstnClosed : bool;               (* lstn.Close() has run *)
  ctxDone : bool;                  (* cancel() has run *)
  join : Z;                        (* the WaitGroup counter *)
  tasks : list Task;               (* goroutines of line 95, in dispatch order *)
  closedConns : list Conn;         (* conn.Close() calls, latest first *)
  output : list (Sink * Message);  (* log lines, in order *)
  slept : Z;                       (* total time spent in backoff sleeps *)
}.

Definition setMain (m : MainPC) (st : State) : State :=
  {| main := m; incoming := incoming st; lstnClosed := lstnClosed st;
     ctxDone := ctxDone st; join := join st; tasks := tasks st;
     closedConns := closedConns st; output := output st; slept := slept st |}.

Definition setIncoming (l : list RawAccept) (st : State) : State :=
  {| main := main st; incoming := l; lstnClosed := lstnClosed st;
     ctxDone := ctxDone st; join := join st; tasks := tasks st;
     closedConns := closedConns st; output := output st; slept := slept st |}.

Definition setLstnClosed (b : bool) (st : State) : State :=
  {| main := main st; incoming := incoming st; lstnClosed := b;
     ctxDone := ctxDone st; join := join st; tasks := tasks st;
     closedConns := closedConns st; output := output st; slept := slept st |}.

Definition setCtxDone (b : bool) (st : State) : State :=
  {| main := main st; incoming := incoming st; lstnClosed := lstnClosed st;
     ctxDone := b; join := join st; tasks := tasks st;
     closedConns := closedConns st; output := output st; slept := slept st |}.

Definition setJoin (n : Z) (st : State) : State :=
  {| main := main st; incoming := incoming st; lstnClosed := lstnClosed st;
     ctxDone := ctxDone st; join := n; tasks := tasks st;
     closedConns := closedConns st; output := output st; slept := slept st |}.

Definition setTasks (l : list Task) (st : State) : State :=
  {| main := main st; incoming := incoming st; lstnClosed := lstnClosed st;
     ctxDone := ctxDone st; join := join st; tasks := l;
     closedConns := closedConns st; output := output st; slept := slept st |}.

Definition setClosedConns (l : list Conn) (st : State) : State :=
  {| main := main st; incoming := incoming st; lstnClosed := lstnClosed st;
     ctxDone := ctxDone st; join := join st; tasks := tasks st;
     closedConns := l; output := output st; slept := slept st |}.

Definition setOutput (l : list (Sink * Message)) (st : State) : State :=
  {| main := main st; incoming := incoming st; lstnClosed := lstnClosed st;
     ctxDone := ctxDone st; join := join st; tasks := tasks st;
     closedConns := closedConns st; output := l; slept := slept st |}.

Definition setSlept (d : Z) (st : State) : State :=
  {| main := main st; incoming := incoming st; lstnClosed := lstnClosed st;
     ctxDone := ctxDone st; join := join st; tasks := tasks st;
     closedConns := closedConns st; output := output st; slept := d |}.

(** The scheduler picks the goroutine that takes the next step. *)
Inductive Action : Type :=
  | RunMain
  | RunTask (i : nat).

Section Serve.

Variable s : Server.

(** [runtime.Stack(buf, false)] in the goroutine serving a connection:
    the whole trace, before it is cut to the buffer. *)
Variable runtimeStack : Conn -> string.

(** Lines 118-124: the server's logger, or the standard one when the
    server has none. *)
Definition sinkOf : Sink :=
  match ErrorLog s with
  | None => StdLog
  | Some l => Custom l
  end.

Definition logf (msg : Message) (st : State) : State :=
  setOutput (output st ++ [(sinkOf, msg)]) st.

(** Lines 110-116: at most [64 << 10] bytes of the trace are kept. *)
Definition recover (err : string) (addr : string) (c : Conn) (st : State) : State :=
  let size := Z.shiftl 64 10 in
  let buf := strings.sliceTo (runtimeStack c) size in
  logf (PanicServingMsg addr err buf) st.

(** Lines 83-85 *)
Definition errf (err : error) (backoff : Z) (st : State) : State :=
  logf (AcceptErrorMsg err backoff) st.

Definition observe (ev : AcceptLoop.Event) (st : State) : State :=
  match ev with
  | AcceptLoop.Report e backoff => errf e backoff st
  | AcceptLoop.Sleep d => setSlept (slept st + d) st
  end.

(** One step of the goroutine running [Serve].  In the loop, a step is
    one raw accept with the reaction of the accept loop: a retry, the
    dispatch of lines 94-95, or the return of line 91, which starts the
    deferred calls: [cancel()], [join.Wait()], [lstn.Close()]. *)
Definition stepMain (st : State) : option State :=
  match main st with
  | MAccept backoff =>
      match incoming st with
      | [] => None                       (* blocked in lstn.Accept() *)
      | r :: rest =>
          let st := setIncoming rest st in
          match AcceptLoop.attempt backoff r with
          | AcceptLoop.Retry evs backoff' =>
              Some (setMain (MAccept backoff') (foldl (fun st ev => observe ev st) st evs))
          | AcceptLoop.Accepted c backoff' =>
              Some (setMain (MAccept backoff')
                      (setTasks (tasks st ++ [ {| conn := c; pc := THandler |} ])
                         (setJoin (join st + 1) st)))
          | AcceptLoop.Failed e => Some (setMain (MCancel e) st)
          end
      end
  | MCancel e => Some (setMain (MWait e) (setCtxDone true st))
  | MWait e =>
      if join st =? 0 then Some (setMain (MClose e) st)
      else None                          (* blocked in join.Wait() *)
  | MClose e => Some (setMain (MReturned e) (setLstnClosed true st))
  | MReturned _ => None
  end.

Definition panicOf (o : Outcome) : option string :=
  match o with
  | Returns => None
  | Panics v => Some v
  end.

(** One step of the goroutine of the [i]-th dispatched connection: the
    handler finishes, then [conn.Close()], [join.Done()] and the deferred
    function that recovers and reports a panic. *)
Definition stepTask (i : nat) (st : State) : option State :=
  match tasks st !! i with
  | None => None
  | Some t =>
      let c := conn t in
      let at_ (p : TaskPC) (st : State) :=
        setTasks (<[i := {| conn := c; pc := p |}]> (tasks st)) st in
      match pc t with
      | THandler =>
          Some (at_ (TConnClose (panicOf (ServeConn (Server_Handler s) c (ctxDone st)))) st)
      | TConnClose p =>
          Some (at_ (TJoinDone p) (setClosedConns (c :: closedConns st) st))
      | TJoinDone p =>
          Some (at_ (TRecover p) (setJoin (join st - 1) st))
      | TRecover None => Some (at_ TExited st)
      | TRecover (Some err) => Some (at_ TExited (recover err (RemoteAddr c) c st))
      | TExited => None
      end
  end.

Definition step (a : Action) (st : State) : option State :=
  match a with
  | RunMain => stepMain st
  | RunTask i => stepTask i st
  end.

(** A schedule is run from left to right; it is refused as soon as it
    picks a goroutine that cannot move. *)
Fixpoint exec (sched : list Action) (st : State) : option State :=
  match sched with
  | [] => Some st
  | a :: sched' =>
      match step a st with
      | None => None
      | Some st' => exec sched' st'
      end
  end.

(** The state at the entry of [Serve(lstn)], for a listener that will
    yield [l]. *)
Definition start (l : list RawAccept) : State :=
  {| main := MAccept AcceptLoop.floor; incoming := l; lstnClosed := false;
     ctxDone := false; join := 0; tasks := []; closedConns := [];
     output := []; slept := 0 |}.

End Serve.

(** A task that has not yet called [join.Done()]. *)
Definition inFlight (t : Task) : bool :=
  match pc t with
  | THandler | TConnClose _ | TJoinDone _ => true
  | TRecover _ | TExited => false
  end.

(** ** A sample host, for running the definitions *)

Definition sampleInterfaces : list Interface :=
  [ {| Name := "lo"; Addrs := (["127.0.0.1/8"; "::1/128"], None) |};
    {| Name := "eth0"; Addrs := (["192.168.1.10/24"; "fe80::1/64"], None) |};
    {| Name := "dummy0"; Addrs := ([], None) |} ].

(** A host on which only the link-local address of [eth0] can be bound,
    and only on port 80. *)
Definition sampleOS : OS := {|
  interfaceTable := (sampleInterfaces, None);
  netListen := fun network address =>
    if String.eqb address "[fe80::1/64]:80" then (Some {| lfd := 3 |}, None)
    else (None, Some (SyscallError ("listen " +:+ network +:+ " " +:+ address)));
  netListenPacket := fun network address =>
    if String.eqb address "[fe80::1/64]:80" then (Some {| pfd := 4 |}, None)
    else (None, Some (SyscallError ("listen " +:+ network +:+ " " +:+ address)));
|}.

(** The number of dispatched tasks that have not yet called
    [join.Done()]. *)
Fixpoint countInFlight (l : list Task) : Z :=
  match l with
  | [] => 0
  | t :: l' => (if inFlight t then 1 else 0) + countInFlight l'
  end.

(** ** Running the tasks to their end *)

(** Steps a task still has to take. *)
Definition remaining (p : TaskPC) : nat :=
  match p with
  | THandler => 4
  | TConnClose _ => 3
  | TJoinDone _ => 2
  | TRecover _ => 1
  | TExited => 0
  end.

(** The schedule that runs every task of [l] to its end, one task after
    the other; the first task of [l] has index [from]. *)
Fixpoint drainSchedule (from : nat) (l : list Task) : list Action :=
  match l with
  | [] => []
  | t :: l' => replicate (remaining (pc t)) (RunTask from) ++ drainSchedule (S from) l'
  end.

Definition exited (t : Task) : Task := {| conn := conn t; pc := TExited |}.

(** ** A sample run of the server *)

Definition peer1 : Conn := {| connId := 1; RemoteAddr := "10.0.0.1:4001" |}.
Definition peer2 : Conn := {| connId := 2; RemoteAddr := "10.0.0.2:4002" |}.
Definition peer3 : Conn := {| connId := 3; RemoteAddr := "10.0.0.3:4003" |}.

Definition errTooManyFiles : error := SyscallError "accept: too many open files".
Definition errClosed : error :=
  OpError "accept" "tcp" (errorString "use of closed network connection").

(** A handler that panics on the second peer only. *)
Definition sampleServer : Server := {|
  Addr := ":9000";
  Server_Handler := {|
    ServeConn := fun c _ => if connId c =? 2 then Panics "boom" else Returns |};
  ErrorLog := None;
|}.

(** The same handler in a server with a logger of its own. *)
Definition loggedServer : Server := {|
  Addr := ":9000";
  Server_Handler := Server_Handler sampleServer;
  ErrorLog := Some "errors"%string;
|}.

Definition sampleStack (c : Conn) : string :=
  "goroutine serving " +:+ RemoteAddr c.

Definition sampleIncoming : list RawAccept :=
  [ AcceptConn peer1; AcceptTemporary errTooManyFiles; AcceptConn peer2;
    AcceptConn peer3; AcceptFatal errClosed ].

(** The accept goroutine runs until it waits for the tasks, the three
    tasks run to their end one after the other, and [Serve] returns. *)
Definition sampleSchedule : list Action :=
  [ RunMain; RunMain; RunMain; RunMain; RunMain; RunMain;
    RunTask 1; RunTask 1; RunTask 1; RunTask 1;
    RunTask 0; RunTask 0; RunTask 0; RunTask 0;
    RunTask 2; RunTask 2; RunTask 2; RunTask 2;
    RunMain; RunMain ].

(** The accept goroutine runs until it waits for the tasks, every task
    runs up to its [join.Done()] and no further, and [Serve] returns. *)
Definition earlyReturnSchedule : list Action :=
  [ RunMain; RunMain; RunMain; RunMain; RunMain; RunMain;
    RunTask 0; RunTask 0; RunTask 0;
    RunTask 1; RunTask 1; RunTask 1;
    RunTask 2; RunTask 2; RunTask 2;
    RunMain; RunMain ].

(** ** Invariants of the server *)

(** A task past [conn.Close()] has its connection among the closed ones. *)
Definition connClosed (closed : list Conn) (t : Task) : Prop :=
  match pc t with
  | THandler | TConnClose _ => True
  | TJoinDone _ | TRecover _ | TExited => In (conn t) closed
  end.

(** What holds at each program point of [Serve], for a listener that was
    going to yield [l]. *)
Definition mainInv (l : list RawAccept) (st : State) : Prop :=
  match main st with
  | MAccept _ => lstnClosed st = false /\ ctxDone st = false
  | MCancel e => In (AcceptFatal e) l /\ lstnClosed st = false
  | MWait e => In (AcceptFatal e) l /\ lstnClosed st = false /\ ctxDone st = true
  | MClose e =>
      In (AcceptFatal e) l /\ lstnClosed st = false /\ ctxDone st = true /\ join st = 0
  | MReturned e =>
      In (AcceptFatal e) l /\ lstnClosed st = true /\ ctxDone st = true /\ join st = 0
  end.

Record Inv (l : list RawAccept) (st : State) : Prop := {
  inv_join : join st = countInFlight (tasks st);
  inv_closed : Forall (connClosed (closedConns st)) (tasks st);
  inv_incoming : exists done, l = done ++ incoming st;
  inv_main : mainInv l st;
}.

(** ** Further invariants of the server *)

(** The connections among what the listener yielded, in order. *)
Fixpoint accepted (l : list RawAccept) : list Conn :=
  match l with
  | [] => []
  | AcceptConn c :: l' => c :: accepted l'
  | _ :: l' => accepted l'
  end.

(** A task that has run its deferred [conn.Close()]. *)
Definition pastClose (t : Task) : bool :=
  match pc t with
  | THandler | TConnClose _ => false
  | TJoinDone _ | TRecover _ | TExited => true
  end.

(** The connections of the tasks past [conn.Close()], in dispatch order. *)
Fixpoint closedOf (l : list Task) : list Conn :=
  match l with
  | [] => []
  | t :: l' => if pastClose t then conn t :: closedOf l' else closedOf l'
  end.

(** The panic a task carries through its deferred calls. *)
Definition panicInFlight (t : Task) : option string :=
  match pc t with
  | TConnClose p | TJoinDone p | TRecover p => p
  | THandler | TExited => None
  end.

(** A log line that [Serve] can account for, for a listener that was going
    to yield [l]: printed on the sink of the server, it reports a transient
    error of the listener, or the panic of the handler on a connection of
    the listener, with the peer address and at most [64 << 10] bytes of
    stack. *)
Definition accounted (s : Server) (runtimeStack : Conn -> string)
    (l : list RawAccept) (line : Sink * Message) : Prop :=
  fst line = sinkOf s
  /\ match snd line with
     | AcceptErrorMsg err _ => In (AcceptTemporary err) l
     | PanicServingMsg addr v stack =>
         exists c ctx,
           In (AcceptConn c) l
           /\ addr = RemoteAddr c
           /\ ServeConn (Server_Handler s) c ctx = Panics v
           /\ stack = strings.sliceTo (runtimeStack c) 65536
           /\ strings.len stack <= 65536
     end.

Record Inv2 (s : Server) (runtimeStack : Conn -> string)
    (l : list RawAccept) (st : State) : Prop := {
  inv2_order : exists done, l = done ++ incoming st /\ map conn (tasks st) = accepted done;
  inv2_closed : Permutation (closedConns st) (closedOf (tasks st));
  inv2_panics :
    Forall (fun t => forall v, panicInFlight t = Some v ->
                       exists ctx, ServeConn (Server_Handler s) (conn t) ctx = Panics v)
      (tasks st);
  inv2_output : Forall (accounted s runtimeStack l) (output st);
  inv2_cancel : forall e, main st = MCancel e -> ctxDone st = false;
}.

(** The server behind the package-level [Serve(lstn, handler)] and
    [ListenAndServe(addr, handler)] of lines 14-28: no [ErrorLog]. *)
Definition packageServer (addr : string) (handler : Handler) : Server :=
  {| Addr := addr; Server_Handler := handler; ErrorLog := None |}.

(** A host with an interface whose addresses cannot be read. *)
Definition brokenOS : OS := {|
  interfaceTable :=
    ([ {| Name := "wg0"; Addrs := ([], Some (SyscallError "netlink: permission denied")) |} ],
     None);
  netListen := netListen sampleOS;
  netListenPacket := netListenPacket sampleOS;
|}.

(** ** ListenAndServe *)

(** What [ListenAndServe] does after [Listen]: it returns the error, or it
    calls [s.Serve(lstn)] with the listener it got, which is not checked
    ([None] is a nil listener). *)
Inductive ListenAndServeStep : Type :=
  | ReturnsError (err : error)
  | CallsServe (lstn : option Listener).

(** Lines 61-69 *)
Definition Server_ListenAndServe (IsIP : string -> bool) (os : OS) (s : Server)
    : ListenAndServeStep :=
  match Listen IsIP os (Addr s) with
  | (lstn, None) => CallsServe lstn
  | (_, Some err) => ReturnsError err
  end.

(** Lines 14-19 *)
Definition ListenAndServe (IsIP : string -> bool) (os : OS)
    (addr : string) (handler : Handler) : ListenAndServeStep :=
  Server_ListenAndServe IsIP os (packageServer addr handler).

(** * Properties *)

(** ** Strings *)

Section StringFacts.
Import strings.

Lemma len_nonneg s : 0 <= len s.
Proof. unfold len. lia. Qed.

Lemma len_cons c s : len (String c s) = len s + 1.
Proof. unfold len. simpl String.length. lia. Qed.

Lemma len_zero s : len s = 0 -> s = ""%string.
Proof. destruct s; [reflexivity | rewrite len_cons; pose proof (len_nonneg s); lia]. Qed.

Lemma HasPrefix_correct s p : HasPrefix s p = true <-> exists t, s = p +:+ t.
Proof.
  revert s. induction p as [|c p IH]; intros s; simpl.
  - split; [exists s; reflexivity | reflexivity].
  - destruct s as [|d s]; simpl.
    + split; [discriminate | intros [t Ht]; discriminate].
    + rewrite andb_true_iff, Ascii.eqb_eq, IH. split.
      * intros [-> [t ->]]. exists t. reflexivity.
      * intros [t Ht]. injection Ht as -> ->. split; [reflexivity | exists t; reflexivity].
Qed.

Lemma Index_negative_cons c s t :
  Index (String c s) t < 0 -> HasPrefix (String c s) t = false /\ Index s t < 0.
Proof.
  cbn [Index]. destruct (HasPrefix (String c s) t); [lia |].
  destruct (Index s t <? 0) eqn:E; [apply Z.ltb_lt in E; auto |].
  apply Z.ltb_ge in E. lia.
Qed.

(** An occurrence of [://] cannot start inside [s] and end after it when
    [s] is followed by [://]. *)
Lemma scheme_sep_no_overlap s rest :
  HasPrefix (s +:+ "://" +:+ rest) "://" = true ->
  s = ""%string \/ HasPrefix s "://" = true.
Proof.
  destruct s as [|a [|b [|c s]]]; simpl; auto.
Qed.

Lemma Index_scheme s rest :
  Index s "://" < 0 -> Index (s +:+ "://" +:+ rest) "://" = len s.
Proof.
  induction s as [|c s IH]; intros H.
  - reflexivity.
  - apply Index_negative_cons in H as [Hp Hs].
    change ((String c s) +:+ "://" +:+ rest) with (String c (s +:+ "://" +:+ rest)).
    cbn [Index].
    destruct (HasPrefix (String c (s +:+ "://" +:+ rest)) "://") eqn:E.
    + apply (scheme_sep_no_overlap (String c s)) in E as [E | E]; congruence.
    + rewrite (IH Hs), len_cons. pose proof (len_nonneg s).
      destruct (len s <? 0) eqn:E'; [apply Z.ltb_lt in E'; lia | reflexivity].
Qed.

Lemma take_app s t : take (String.length s) (s +:+ t) = s.
Proof. induction s; simpl; [destruct t; reflexivity | f_equal; assumption]. Qed.

Lemma sliceTo_app s t : sliceTo (s +:+ t) (len s) = s.
Proof. unfold sliceTo, len. rewrite Nat2Z.id. apply take_app. Qed.

(** Two schemes followed by [://] at the start of one address are equal. *)
Lemma scheme_unique scheme proto rest :
  Index scheme "://" < 0 -> Index proto "://" < 0 ->
  HasPrefix (scheme +:+ "://" +:+ rest) (proto +:+ "://") = true ->
  proto = scheme.
Proof.
  revert proto. induction scheme as [|x scheme IH]; intros proto Hs Hp H.
  - destruct proto as [|a [|b [|c p]]]; auto; simpl in H.
    + rewrite andb_false_r in H. discriminate.
    + rewrite !andb_false_r in H. discriminate.
    + rewrite !andb_true_iff, !Ascii.eqb_eq in H.
      destruct H as (-> & -> & -> & _). simpl in Hp. lia.
  - destruct proto as [|a p].
    + apply (scheme_sep_no_overlap (String x scheme)) in H as [H | H]; [discriminate |].
      apply Index_negative_cons in Hs as [Hs _]. congruence.
    + simpl in H. rewrite andb_true_iff, Ascii.eqb_eq in H. destruct H as [-> H].
      apply Index_negative_cons in Hs as [_ Hs].
      apply Index_negative_cons in Hp as [_ Hp].
      f_equal. apply IH; assumption.
Qed.

End StringFacts.

(** ** The resolver *)

Section ResolverFacts.
Import strings.

Variable IsIP : string -> bool.
Variable os : OS.

Lemma matchProtocol_none address protocols :
  Forall (fun proto => HasPrefix address (proto +:+ "://") = false) protocols ->
  matchProtocol address protocols = (""%string, address).
Proof.
  induction 1 as [|proto protocols Hp _ IH]; simpl; [reflexivity |].
  rewrite Hp. exact IH.
Qed.

Lemma matchProtocol_cases address protocols :
  matchProtocol address protocols = (""%string, address)
  \/ exists proto,
       In proto protocols /\ HasPrefix address (proto +:+ "://") = true
       /\ matchProtocol address protocols = (proto, sliceFrom address (len proto + 3)).
Proof.
  induction protocols as [|proto protocols IH]; simpl; [left; reflexivity |].
  destruct (HasPrefix address (proto +:+ "://")) eqn:E.
  - right. exists proto. auto.
  - destruct IH as [IH | (p & Hin & Hp & IH)]; [left; exact IH |].
    right. exists p. auto.
Qed.

(** The network returned by a successful scheme step is empty, or it is an
    allowed protocol that prefixes the address. *)
Lemma schemeStep_network address protocols network address' :
  schemeStep address protocols = (network, address', None) ->
  network = ""%string
  \/ (network <> ""%string /\ In network protocols
      /\ HasPrefix address (network +:+ "://") = true).
Proof.
  unfold schemeStep. destruct (0 <=? Index address "://"); [| intros [= <- _]; auto].
  destruct (matchProtocol_cases address protocols) as [-> | (p & Hin & Hp & ->)].
  - simpl. discriminate.
  - destruct (len p =? 0) eqn:E; [discriminate |].
    intros [= <- _]. right. repeat split; auto.
    intros ->. discriminate.
Qed.

(** The last branch of [resolveListen]: a host that is neither an IP
    literal nor an interface gives the unix-socket target together with the
    error of the interface lookup. *)
Lemma classify_neither network address defaultProtoNetwork defaultProtoUnix host port err :
  hostPort address = (host, port) ->
  IsIP host = false ->
  InterfaceByName os host = inr err ->
  classify IsIP os network address defaultProtoNetwork defaultProtoUnix
  = (orDefault network defaultProtoUnix, [address], Some err).
Proof. intros Hhp Hip Hifi. unfold classify. rewrite Hhp, Hip, Hifi. reflexivity. Qed.

End ResolverFacts.

Section ResolverClaims.
Import strings.

Variable IsIP : string -> bool.
Variable os : OS.

(** C1.  For the address [":9000"] the host part is empty; it is not an
    IP literal and [net.InterfaceByName] refuses an empty name, so the
    address falls into the unix-socket branch: the result is the
    unix-domain default protocol with the single target [":9000"], and
    the lookup error is returned as the error of the resolution.
    [Listen(":9000")] therefore fails. *)
Theorem resolveListen_bare_port defaultProtoNetwork defaultProtoUnix protocols :
  IsIP "" = false ->
  resolveListen IsIP os ":9000" defaultProtoNetwork defaultProtoUnix protocols
  = (defaultProtoUnix, [":9000"%string], Some errInvalidInterfaceName)
  /\ Listen IsIP os ":9000" = (None, Some errInvalidInterfaceName).
Proof.
  intros H.
  assert (R : forall dn du ps,
             resolveListen IsIP os ":9000" dn du ps
             = (du, [":9000"%string], Some errInvalidInterfaceName)).
  { intros dn du ps. unfold resolveListen, schemeStep.
    change (Index ":9000" "://") with (-1). cbn [Z.leb Z.compare].
    unfold classify. change (hostPort ":9000") with (""%string, "9000"%string).
    cbv beta iota zeta. rewrite H. reflexivity. }
  split; [apply R |].
  unfold Listen, ListenTraced. rewrite R. reflexivity.
Qed.

(** C5.  An address [scheme://rest] whose scheme is not in the list of
    allowed protocols is refused with the error "unsupported protocol:
    scheme", an empty network and no target.  The scheme is what precedes
    the first [://], and the allowed protocols are scheme names: none
    contains [://]. *)
Theorem resolveListen_unsupported_protocol scheme rest
    defaultProtoNetwork defaultProtoUnix protocols :
  Index scheme "://" < 0 ->
  Forall (fun proto => Index proto "://" < 0) protocols ->
  ~ In scheme protocols ->
  resolveListen IsIP os (scheme +:+ "://" +:+ rest)
    defaultProtoNetwork defaultProtoUnix protocols
  = (""%string, [], Some (errorString ("unsupported protocol: " +:+ scheme))).
Proof.
  intros Hs Hps Hnot. unfold resolveListen, schemeStep.
  rewrite (Index_scheme _ _ Hs).
  pose proof (len_nonneg scheme) as Hlen.
  destruct (0 <=? len scheme) eqn:E; [| apply Z.leb_gt in E; lia].
  rewrite matchProtocol_none.
  - simpl. rewrite sliceTo_app. reflexivity.
  - rewrite Forall_forall in Hps |- *. intros proto Hin.
    destruct (HasPrefix (scheme +:+ "://" +:+ rest) (proto +:+ "://")) eqn:Hp; [| reflexivity].
    apply scheme_unique in Hp; [| assumption | apply Hps; assumption].
    subst proto. apply list_elem_of_In in Hin. contradiction.
Qed.

(** C6.  When the host of the address is not an IP literal and names a
    network interface whose addresses are [ifa], the resolution succeeds
    with one target per interface address, in the order of [ifa]: the
    address [a] itself when no port was given; otherwise [a:port], or
    [[a]:port] when [a] contains a colon, which is what [net.JoinHostPort]
    writes.  The network is the explicit scheme when there is one and the
    stream default otherwise. *)
Theorem resolveListen_interface address defaultProtoNetwork defaultProtoUnix protocols
    network address' host port ifi ifa :
  schemeStep address protocols = (network, address', None) ->
  hostPort address' = (host, port) ->
  IsIP host = false ->
  InterfaceByName os host = inl ifi ->
  Addrs ifi = (ifa, None) ->
  exists targets,
    resolveListen IsIP os address defaultProtoNetwork defaultProtoUnix protocols
    = (if len network =? 0 then defaultProtoNetwork else network, targets, None)
    /\ length targets = length ifa
    /\ targets
       = map (fun a => if len port =? 0 then a
                       else if 0 <=? IndexByte a ":" then "[" +:+ a +:+ "]:" +:+ port
                       else a +:+ ":" +:+ port) ifa
    /\ forall i a, ifa !! i = Some a ->
         targets !! i
         = Some (if len port =? 0 then a
                 else if 0 <=? IndexByte a ":" then "[" +:+ a +:+ "]:" +:+ port
                 else a +:+ ":" +:+ port).
Proof.
  intros Hscheme Hhp Hip Hifi Hifa.
  exists (map (joinPort port) ifa).
  unfold resolveListen. rewrite Hscheme. unfold classify.
  rewrite Hhp, Hip, Hifi, Hifa. split; [reflexivity |].
  split; [apply length_map |].
  assert (Htext : forall a,
             joinPort port a
             = (if len port =? 0 then a
                else if 0 <=? IndexByte a ":" then "[" +:+ a +:+ "]:" +:+ port
                else a +:+ ":" +:+ port)).
  { intros a. unfold joinPort, net.JoinHostPort. destruct (len port =? 0); reflexivity. }
  split; [apply map_ext; exact Htext |].
  intros i a Hi. rewrite list_lookup_fmap, Hi. simpl. rewrite Htext. reflexivity.
Qed.

(** C10.  With a non-empty stream default, the network of a successful
    resolution is not empty, and it is an allowed protocol that prefixes
    the address as [network://], or one of the two defaults. *)
Theorem resolveListen_network address defaultProtoNetwork defaultProtoUnix protocols
    network addrs :
  defaultProtoNetwork <> ""%string ->
  resolveListen IsIP os address defaultProtoNetwork defaultProtoUnix protocols
  = (network, addrs, None) ->
  network <> ""%string
  /\ ((In network protocols /\ HasPrefix address (network +:+ "://") = true)
      \/ network = defaultProtoNetwork
      \/ network = defaultProtoUnix).
Proof.
  intros Hdn. unfold resolveListen.
  destruct (schemeStep address protocols) as [[net0 address'] [err|]] eqn:Hscheme;
    [discriminate |].
  apply schemeStep_network in Hscheme.
  assert (Hor : forall dflt, dflt <> ""%string ->
            orDefault net0 dflt <> ""%string
            /\ ((In (orDefault net0 dflt) protocols
                 /\ HasPrefix address (orDefault net0 dflt +:+ "://") = true)
                \/ orDefault net0 dflt = dflt)).
  { intros dflt Hd. unfold orDefault.
    destruct Hscheme as [-> | (Hne & Hin & Hp)]; [simpl; auto |].
    destruct (len net0 =? 0) eqn:E; [| auto].
    apply Z.eqb_eq, len_zero in E. contradiction. }
  unfold classify. destruct (hostPort address') as [host port].
  destruct (IsIP host).
  - intros [= <- _]. destruct (Hor _ Hdn) as [? [? | ?]]; auto.
  - destruct (InterfaceByName os host) as [ifi | err]; [| discriminate].
    destruct (Addrs ifi) as [ifa [err|]]; [discriminate |].
    intros [= <- _]. destruct (Hor _ Hdn) as [? [? | ?]]; auto.
Qed.

End ResolverClaims.

(** ** Listen and ListenPacket *)

Section TryEach.
Context {L : Type}.
Variable open : string -> string -> option L * option error.
Variable network : string.

(** After failures on [pre], the loop stops at [a] when [a] succeeds or
    is the last address, and the results of the loop are those of [a]. *)
Lemma tryEach_stops pre a rest lstn err :
  Forall (fun x => snd (open network x) <> None) pre ->
  snd (open network a) = None \/ rest = [] ->
  tryEach open network (pre ++ a :: rest) lstn err = (open network a, pre ++ [a]).
Proof.
  intros Hpre Ha. revert lstn err.
  induction Hpre as [|x pre Hx _ IH]; intros lstn err; simpl.
  - destruct (open network a) as [l [e|]] eqn:E; [| reflexivity].
    destruct Ha as [Ha | ->]; [discriminate | reflexivity].
  - destruct (open network x) as [l [e|]] eqn:E; [| contradiction].
    rewrite IH. destruct (open network a). reflexivity.
Qed.

End TryEach.

Section ListenClaims.
Import strings.

Variable IsIP : string -> bool.
Variable os : OS.

(** C7.  [Listen] and [ListenPacket] open the resolved targets in their
    order.  When every target before [a] fails and [a] succeeds, or [a]
    fails too and is the last target, the function returns what opening
    [a] returned: the first listener opened, or the last error.  The
    targets after [a] are not tried, and the errors before [a] are lost. *)
Theorem Listen_first_success_or_last_error address :
  (forall network pre a rest,
      resolveListen IsIP os address "tcp" "unix" streamProtocols
      = (network, pre ++ a :: rest, None) ->
      Forall (fun x => snd (netListen os network x) <> None) pre ->
      snd (netListen os network a) = None \/ rest = [] ->
      ListenTraced IsIP os address = (netListen os network a, pre ++ [a])
      /\ Listen IsIP os address = netListen os network a)
  /\ (forall network pre a rest,
      resolveListen IsIP os address "udp" "unixdgram" packetProtocols
      = (network, pre ++ a :: rest, None) ->
      Forall (fun x => snd (netListenPacket os network x) <> None) pre ->
      snd (netListenPacket os network a) = None \/ rest = [] ->
      ListenPacketTraced IsIP os address = (netListenPacket os network a, pre ++ [a])
      /\ ListenPacket IsIP os address = netListenPacket os network a).
Proof.
  split; intros network pre a rest Hres Hpre Ha.
  - unfold Listen, ListenTraced. rewrite Hres, (tryEach_stops _ _ _ _ _ _ _ Hpre Ha).
    split; reflexivity.
  - unfold ListenPacket, ListenPacketTraced.
    rewrite Hres, (tryEach_stops _ _ _ _ _ _ _ Hpre Ha).
    split; reflexivity.
Qed.

End ListenClaims.

(** ** The resolver on the sample host *)

Example IsIP_samples :
  map ip.IsIP ["127.0.0.1"; "::1"; "::"; "fe80::1"; "1:2:3:4:5:6:7:8"; "::ffff:10.0.0.1"]
  = [true; true; true; true; true; true]
  /\ map ip.IsIP [""; "eth0"; "/tmp/sock.s"; "256.0.0.1"; "1.2.3"; ":1:2:3:4:5:6:7";
                  ":::"; "1:2:3:4::5:6:7:8"; "host"; "01.2.3.4"; ":"; "1"]
     = [false; false; false; false; false; false; false; false; false; false; false; false].
Proof. split; vm_compute; reflexivity. Qed.

Example SplitHostPort_samples :
  map net.SplitHostPort [":9000"; "[::1]:0"; "eth0:80"; "host"; "a:b:c"]
  = [ (""%string, "9000"%string, None);
      ("::1"%string, "0"%string, None);
      ("eth0"%string, "80"%string, None);
      (""%string, ""%string, Some (AddrError net.missingPort "host"));
      (""%string, ""%string, Some (AddrError net.tooManyColons "a:b:c")) ].
Proof. vm_compute. reflexivity. Qed.

Lemma resolveListen_bare_port_witness :
  ip.IsIP "" = false
  /\ resolveListen ip.IsIP sampleOS ":9000" "tcp" "unix" streamProtocols
     = ("unix"%string, [":9000"%string], Some errInvalidInterfaceName)
  /\ Listen ip.IsIP sampleOS ":9000" = (None, Some errInvalidInterfaceName).
Proof.
  split; [reflexivity |].
  apply (resolveListen_bare_port ip.IsIP sampleOS "tcp" "unix" streamProtocols).
  reflexivity.
Defined.

Lemma resolveListen_unsupported_protocol_witness :
  resolveListen ip.IsIP sampleOS "xyz://host:1" "tcp" "unix" streamProtocols
  = (""%string, [], Some (errorString "unsupported protocol: xyz")).
Proof.
  apply (resolveListen_unsupported_protocol ip.IsIP sampleOS "xyz" "host:1"
           "tcp" "unix" streamProtocols).
  - reflexivity.
  - unfold streamProtocols. repeat constructor.
  - unfold streamProtocols. simpl. intros [H | [H | [H | [H | [H | H]]]]];
      try discriminate H; exact H.
Defined.

Lemma resolveListen_interface_witness :
  resolveListen ip.IsIP sampleOS "tcp4://eth0:80" "tcp" "unix" streamProtocols
  = ("tcp4"%string, ["192.168.1.10/24:80"; "[fe80::1/64]:80"]%string, None)
  /\ resolveListen ip.IsIP sampleOS "lo" "udp" "unixdgram" packetProtocols
     = ("udp"%string, ["127.0.0.1/8"; "::1/128"]%string, None).
Proof.
  split.
  - destruct (resolveListen_interface ip.IsIP sampleOS "tcp4://eth0:80" "tcp" "unix"
                streamProtocols "tcp4" "eth0:80" "eth0" "80"
                {| Name := "eth0"; Addrs := (["192.168.1.10/24"; "fe80::1/64"]%string, None) |}
                ["192.168.1.10/24"; "fe80::1/64"]%string
                eq_refl eq_refl eq_refl eq_refl eq_refl)
      as (targets & Hres & _ & Htargets & _).
    rewrite Hres, Htargets. reflexivity.
  - destruct (resolveListen_interface ip.IsIP sampleOS "lo" "udp" "unixdgram"
                packetProtocols "" "lo" "lo" ""
                {| Name := "lo"; Addrs := (["127.0.0.1/8"; "::1/128"]%string, None) |}
                ["127.0.0.1/8"; "::1/128"]%string
                eq_refl eq_refl eq_refl eq_refl eq_refl)
      as (targets & Hres & _ & Htargets & _).
    rewrite Hres, Htargets. reflexivity.
Defined.

(** C8.  On a host where the interface [dummy0] has no address, the
    address ["dummy0:80"] resolves without error to the network ["tcp"] and
    an empty list of targets; [Listen] then returns neither a listener nor
    an error. *)
Theorem resolveListen_interface_without_address :
  resolveListen ip.IsIP sampleOS "dummy0:80" "tcp" "unix" streamProtocols
  = ("tcp"%string, [], None)
  /\ Listen ip.IsIP sampleOS "dummy0:80" = (None, None).
Proof. split; vm_compute; reflexivity. Qed.

Lemma resolveListen_network_witness :
  "tcp6"%string <> ""%string
  /\ ((In "tcp6"%string streamProtocols
       /\ strings.HasPrefix "tcp6://[::1]:0" ("tcp6" +:+ "://") = true)
      \/ "tcp6"%string = "tcp"%string
      \/ "tcp6"%string = "unix"%string).
Proof.
  apply (resolveListen_network ip.IsIP sampleOS "tcp6://[::1]:0" "tcp" "unix"
           streamProtocols "tcp6" ["[::1]:0"%string]).
  - discriminate.
  - reflexivity.
Defined.

Lemma Listen_first_success_or_last_error_witness :
  Listen ip.IsIP sampleOS "eth0:80" = (Some {| lfd := 3 |}, None)
  /\ Listen ip.IsIP sampleOS "eth0:81"
     = (None, Some (SyscallError "listen tcp [fe80::1/64]:81"))
  /\ ListenPacket ip.IsIP sampleOS "eth0:80" = (Some {| pfd := 4 |}, None)
  /\ ListenPacket ip.IsIP sampleOS "eth0:81"
     = (None, Some (SyscallError "listen udp [fe80::1/64]:81")).
Proof.
  pose proof (Listen_first_success_or_last_error ip.IsIP sampleOS "eth0:80") as [S80 P80].
  pose proof (Listen_first_success_or_last_error ip.IsIP sampleOS "eth0:81") as [S81 P81].
  split; [| split; [| split]].
  - apply (S80 "tcp"%string ["192.168.1.10/24:80"%string] "[fe80::1/64]:80"%string []);
      [reflexivity | repeat constructor; discriminate | left; reflexivity].
  - apply (S81 "tcp"%string ["192.168.1.10/24:81"%string] "[fe80::1/64]:81"%string []);
      [reflexivity | repeat constructor; discriminate | right; reflexivity].
  - apply (P80 "udp"%string ["192.168.1.10/24:80"%string] "[fe80::1/64]:80"%string []);
      [reflexivity | repeat constructor; discriminate | left; reflexivity].
  - apply (P81 "udp"%string ["192.168.1.10/24:81"%string] "[fe80::1/64]:81"%string []);
      [reflexivity | repeat constructor; discriminate | right; reflexivity].
Defined.

(** ** The accept loop *)

Section AcceptLoopFacts.
Import AcceptLoop.

Lemma backoffAt_bounds i : floor <= backoffAt i <= ceiling.
Proof.
  unfold backoffAt, floor, ceiling.
  assert (1 <= 2 ^ Z.of_nat i) by (apply (Z.pow_le_mono_r 2 0); lia).
  lia.
Qed.

Lemma backoffAt_succ i : backoffAt (S i) = Z.min (2 * backoffAt i) ceiling.
Proof.
  unfold backoffAt. rewrite Nat2Z.inj_succ, Z.pow_succ_r by lia.
  unfold floor, ceiling. lia.
Qed.

(** The loop entered at the backoff of the [k]-th failure. *)
Lemma loop_transient k errs c rest :
  loop (backoffAt k) (map AcceptTemporary errs ++ AcceptConn c :: rest)
  = (Some (inl c), floor, rest,
     concat (imap (fun i e => [Report e (backoffAt (k + i)); Sleep (backoffAt (k + i))]) errs)).
Proof.
  revert k. induction errs as [|e errs IH]; intros k; simpl.
  - reflexivity.
  - rewrite <- backoffAt_succ, (IH (S k)), Nat.add_0_r.
    do 4 f_equal. apply imap_ext. intros i x _. simpl.
    rewrite Nat.add_succ_r. reflexivity.
Qed.

End AcceptLoopFacts.

(** ** The server *)

Section ServerFacts.

Variable s : Server.
Variable runtimeStack : Conn -> string.

Lemma countInFlight_nonneg l : 0 <= countInFlight l.
Proof. induction l as [|t l IH]; simpl; [lia | destruct (inFlight t); lia]. Qed.

Lemma countInFlight_app l l' :
  countInFlight (l ++ l') = countInFlight l + countInFlight l'.
Proof. induction l as [|t l IH]; simpl; [reflexivity | rewrite IH; lia]. Qed.

Lemma countInFlight_insert l i t t' :
  l !! i = Some t ->
  countInFlight (<[i := t']> l)
  = countInFlight l - (if inFlight t then 1 else 0) + (if inFlight t' then 1 else 0).
Proof.
  revert i. induction l as [|x l IH]; intros [|i] H; simpl in *; try discriminate.
  - injection H as ->. lia.
  - rewrite (IH i H). lia.
Qed.

Lemma countInFlight_lookup l i t :
  l !! i = Some t -> inFlight t = true -> 1 <= countInFlight l.
Proof.
  revert i. induction l as [|x l IH]; intros [|i] H Ht; simpl in *; try discriminate.
  - injection H as ->. rewrite Ht. pose proof (countInFlight_nonneg l). lia.
  - pose proof (IH i H Ht). destruct (inFlight x); lia.
Qed.

Lemma countInFlight_zero l :
  countInFlight l = 0 -> Forall (fun t => inFlight t = false) l.
Proof.
  induction l as [|t l IH]; simpl; intros H; constructor.
  - pose proof (countInFlight_nonneg l). destruct (inFlight t); [lia | reflexivity].
  - apply IH. pose proof (countInFlight_nonneg l). destruct (inFlight t); lia.
Qed.

(** The four fields of the invariant, when the step has left most of
    the state alone. *)
Ltac inv_fields :=
  split; simpl; eauto; try (unfold mainInv; simpl; auto).

Lemma Inv_start l : Inv l (start l).
Proof. inv_fields. exists []. reflexivity. Qed.

Lemma Inv_stepMain l st st' : Inv l st -> stepMain s st = Some st' -> Inv l st'.
Proof.
  intros [Hj Hc [done Hi] Hm]. unfold stepMain, mainInv in *.
  destruct (main st) as [b | e | e | e | e] eqn:Em.
  - destruct (incoming st) as [|r rest] eqn:Ei; [discriminate |].
    destruct Hm as [Hl Hx].
    assert (Hdone : l = (done ++ [r]) ++ rest) by (rewrite <- app_assoc; exact Hi).
    destruct r as [c | e | e]; simpl; intros [= <-].
    + split; simpl.
      * rewrite countInFlight_app, Hj. simpl. lia.
      * apply Forall_app. split; [exact Hc | repeat constructor].
      * eauto.
      * unfold mainInv. simpl. auto.
    + unfold errf, logf. inv_fields.
    + inv_fields. split; [| exact Hl].
      rewrite Hi. apply in_or_app. right. left. reflexivity.
  - intros [= <-]. destruct Hm as [Hf Hl]. inv_fields.
  - destruct (join st =? 0) eqn:E; [| discriminate]. intros [= <-].
    apply Z.eqb_eq in E. destruct Hm as (Hf & Hl & Hx). inv_fields.
  - intros [= <-]. destruct Hm as (Hf & Hl & Hx & H0). inv_fields.
  - discriminate.
Qed.

Lemma connClosed_mono closed c l :
  Forall (connClosed closed) l -> Forall (connClosed (c :: closed)) l.
Proof.
  intros H. eapply Forall_impl; [exact H |]. intros t. unfold connClosed.
  destruct (pc t); simpl; auto.
Qed.

Lemma Inv_stepTask l i st st' :
  Inv l st -> stepTask s runtimeStack i st = Some st' -> Inv l st'.
Proof.
  intros [Hj Hc Hi Hm]. unfold stepTask.
  destruct (tasks st !! i) as [[c p]|] eqn:Et; [| discriminate].
  pose proof (countInFlight_insert _ _ _ {| conn := c; pc := TExited |} Et) as Hexit.
  simpl. destruct p as [| p | p | [err|] |]; intros [= <-].
  - split; simpl; auto.
    + rewrite (countInFlight_insert _ _ _ _ Et). simpl. lia.
    + apply Forall_insert; [exact Hc | exact I].
  - split; simpl; auto.
    + rewrite (countInFlight_insert _ _ _ _ Et). simpl. lia.
    + apply Forall_insert; [apply connClosed_mono; exact Hc |].
      unfold connClosed. simpl. auto.
  - pose proof (countInFlight_lookup _ _ _ Et eq_refl) as Hpos.
    pose proof (Forall_lookup_1 _ _ _ _ Hc Et) as Hthis.
    split; simpl; auto.
    + rewrite (countInFlight_insert _ _ _ _ Et). simpl. lia.
    + apply Forall_insert; [exact Hc | exact Hthis].
    + unfold mainInv in *. simpl. destruct (main st); intuition lia.
  - pose proof (Forall_lookup_1 _ _ _ _ Hc Et) as Hthis.
    unfold recover, logf. split; simpl; auto.
    + rewrite Hexit. simpl. lia.
    + apply Forall_insert; auto.
  - pose proof (Forall_lookup_1 _ _ _ _ Hc Et) as Hthis.
    split; simpl; auto.
    + rewrite Hexit. simpl. lia.
    + apply Forall_insert; auto.
Qed.

Lemma Inv_exec l sched st st' :
  Inv l st -> exec s runtimeStack sched st = Some st' -> Inv l st'.
Proof.
  revert st. induction sched as [|a sched IH]; intros st H; simpl.
  - intros [= <-]. exact H.
  - destruct (step s runtimeStack a st) as [st1|] eqn:E; [| discriminate].
    apply IH. destruct a as [|i]; simpl in E.
    + exact (Inv_stepMain _ _ _ H E).
    + exact (Inv_stepTask _ _ _ _ H E).
Qed.

(** A step of a task leaves the accept goroutine, the listener and the
    context alone. *)
Lemma stepTask_frame i st st' :
  stepTask s runtimeStack i st = Some st' ->
  main st' = main st /\ incoming st' = incoming st
  /\ lstnClosed st' = lstnClosed st /\ ctxDone st' = ctxDone st.
Proof.
  unfold stepTask. destruct (tasks st !! i) as [[c p]|]; [| discriminate].
  simpl. destruct p as [| p | p | [err|] |]; intros [= <-]; auto.
Qed.

Lemma exec_app a b st :
  exec s runtimeStack (a ++ b) st
  = match exec s runtimeStack a st with
    | Some st' => exec s runtimeStack b st'
    | None => None
    end.
Proof.
  revert st. induction a as [|x a IH]; intros st; simpl; [reflexivity |].
  destruct (step s runtimeStack x st); [apply IH | reflexivity].
Qed.

(** One step of a task that has not exited. *)
Lemma stepTask_progress i st t :
  tasks st !! i = Some t ->
  pc t <> TExited ->
  exists st' p',
    stepTask s runtimeStack i st = Some st'
    /\ tasks st' = <[i := {| conn := conn t; pc := p' |}]> (tasks st)
    /\ S (remaining p') = remaining (pc t)
    /\ join st' = join st - (if inFlight t then 1 else 0)
                  + (if inFlight {| conn := conn t; pc := p' |} then 1 else 0)
    /\ main st' = main st /\ incoming st' = incoming st.
Proof.
  intros Et Hne. unfold stepTask. rewrite Et. destruct t as [c p]. simpl in *.
  destruct p as [| p | p | [err|] |]; try contradiction;
    eexists; eexists; (split; [reflexivity |]); unfold inFlight; simpl;
    repeat (split; [reflexivity || lia |]); reflexivity || lia.
Qed.

(** A task run to its end. *)
Lemma exec_task i st t :
  tasks st !! i = Some t ->
  exists st',
    exec s runtimeStack (replicate (remaining (pc t)) (RunTask i)) st = Some st'
    /\ tasks st' = <[i := exited t]> (tasks st)
    /\ join st' = join st - (if inFlight t then 1 else 0)
    /\ main st' = main st /\ incoming st' = incoming st.
Proof.
  remember (remaining (pc t)) as n eqn:En. revert st t En.
  induction n as [|n IH]; intros st t En Et.
  - exists st. destruct t as [c p]. destruct p; try discriminate. simpl.
    rewrite list_insert_id by exact Et. rewrite Z.sub_0_r. auto.
  - assert (Hne : pc t <> TExited) by (intros E; rewrite E in En; discriminate).
    destruct (stepTask_progress i st t Et Hne) as (st1 & p' & Hs & Ht & Hr & Hj & Hm & Hi).
    assert (Et1 : tasks st1 !! i = Some {| conn := conn t; pc := p' |}).
    { rewrite Ht. apply list_lookup_insert_eq. eapply lookup_lt_Some. exact Et. }
    destruct (IH st1 {| conn := conn t; pc := p' |}) as (st' & He & Ht' & Hj' & Hm' & Hi').
    { simpl. lia. }
    { exact Et1. }
    exists st'. simpl. rewrite Hs. split; [exact He |].
    rewrite Ht', Ht, list_insert_insert_eq, Hj', Hj, Hm', Hm, Hi', Hi.
    unfold exited. simpl. repeat split. lia.
Qed.

Lemma exec_drain todo done st :
  tasks st = done ++ todo ->
  exists st',
    exec s runtimeStack (drainSchedule (length done) todo) st = Some st'
    /\ tasks st' = done ++ map exited todo
    /\ join st' = join st - countInFlight todo
    /\ main st' = main st /\ incoming st' = incoming st.
Proof.
  revert done st. induction todo as [|t todo IH]; intros done st Ht.
  - exists st. simpl. rewrite Z.sub_0_r. auto.
  - assert (Et : tasks st !! length done = Some t).
    { rewrite Ht. apply list_lookup_middle. reflexivity. }
    destruct (exec_task _ _ _ Et) as (st1 & He1 & Ht1 & Hj1 & Hm1 & Hi1).
    destruct (IH (done ++ [exited t]) st1) as (st' & He & Ht' & Hj' & Hm' & Hi').
    { rewrite Ht1, Ht. rewrite insert_app_r_alt, Nat.sub_diag by lia.
      simpl. rewrite <- app_assoc. reflexivity. }
    exists st'. simpl. rewrite exec_app, He1.
    rewrite length_app, Nat.add_1_r in He. split; [exact He |].
    rewrite Ht', Hj', Hj1, Hm', Hm1, Hi', Hi1, <- app_assoc. simpl.
    repeat split. lia.
Qed.

(** After a fatal accept error, running the deferred [cancel()], every
    task to its end and the two other deferred calls makes [Serve] return. *)
Lemma exec_shutdown l st err :
  Inv l st ->
  main st = MCancel err ->
  exists st',
    exec s runtimeStack (RunMain :: drainSchedule 0 (tasks st) ++ [RunMain; RunMain]) st
    = Some st'
    /\ main st' = MReturned err.
Proof.
  intros [Hj _ _ _] Hm.
  cbn [exec step]. unfold stepMain at 1. rewrite Hm.
  set (st1 := setMain (MWait err) (setCtxDone true st)).
  destruct (exec_drain (tasks st) [] st1 eq_refl) as (st2 & He & Ht & Hj2 & Hm2 & _).
  rewrite exec_app. simpl in He. change (tasks st1) with (tasks st). rewrite He.
  change (join st1) with (join st) in Hj2. change (main st1) with (MWait err) in Hm2.
  cbn [exec step]. unfold stepMain at 1. rewrite Hm2.
  replace (join st2 =? 0) with true by (symmetry; apply Z.eqb_eq; lia).
  unfold stepMain. simpl. eexists. split; reflexivity.
Qed.

(** X17.  The listener is closed last: in every state that [Serve]
    reaches, if [lstn.Close()] has run then [Serve] has returned; the
    listener stays open while [Serve] waits for the tasks. *)
Lemma listener_closed_last l sched st :
  exec s runtimeStack sched (start l) = Some st ->
  lstnClosed st = true ->
  exists err, main st = MReturned err.
Proof.
  intros Hexec Hclosed.
  destruct (Inv_exec l sched _ _ (Inv_start l) Hexec) as [_ _ _ Hm].
  unfold mainInv in Hm. destruct (main st) as [b | e | e | e | e]; eauto;
    destruct Hm as (H1 & H2); try destruct H2 as (H2 & H3); congruence.
Qed.

End ServerFacts.

Section ServeBackoff.
Import AcceptLoop.

Variable s : Server.
Variable runtimeStack : Conn -> string.

(** [Serve] at line 90, while the listener fails transiently and then
    yields a connection: one log line per failure, the sleeps add up, and
    the connection is dispatched with the backoff back at the floor. *)
Lemma exec_transient k errs c rest st :
  main st = MAccept (backoffAt k) ->
  incoming st = map AcceptTemporary errs ++ AcceptConn c :: rest ->
  exists st',
    exec s runtimeStack (replicate (S (length errs)) RunMain) st = Some st'
    /\ main st' = MAccept floor
    /\ incoming st' = rest
    /\ output st'
       = output st ++ imap (fun i e => (sinkOf s, AcceptErrorMsg e (backoffAt (k + i)))) errs
    /\ slept st' = slept st + foldr Z.add 0 (imap (fun i _ => backoffAt (k + i)) errs)
    /\ tasks st' = tasks st ++ [ {| conn := c; pc := THandler |} ]
    /\ join st' = join st + 1.
Proof.
  revert k st. induction errs as [|e errs IH]; intros k st Hm Hi.
  - simpl in *. unfold stepMain. rewrite Hm, Hi. simpl.
    eexists. split; [reflexivity |]. simpl.
    rewrite app_nil_r, Z.add_0_r. auto 10.
  - change (replicate (S (length (e :: errs))) RunMain)
      with (RunMain :: replicate (S (length errs)) RunMain).
    cbn [exec step]. unfold stepMain at 1. rewrite Hm, Hi.
    cbn [map app attempt foldl observe].
    rewrite <- backoffAt_succ.
    set (st1 := setMain _ _).
    destruct (IH (S k) st1) as (st' & He & Hm' & Hi' & Ho & Hs & Ht & Hj).
    { reflexivity. }
    { reflexivity. }
    exists st'. split; [exact He |]. split; [exact Hm' |]. split; [exact Hi' |].
    assert (H1 : output st1 = output st ++ [(sinkOf s, AcceptErrorMsg e (backoffAt k))]
                 /\ slept st1 = slept st + backoffAt k
                 /\ tasks st1 = tasks st /\ join st1 = join st).
    { unfold st1, errf, logf. auto. }
    destruct H1 as (Ho1 & Hs1 & Ht1 & Hj1).
    rewrite Ho1 in Ho. rewrite Hs1 in Hs. rewrite Ht1 in Ht. rewrite Hj1 in Hj.
    split; [| split; [| split]]; try assumption.
    + rewrite Ho, <- app_assoc, imap_cons, Nat.add_0_r. do 2 f_equal.
      apply imap_ext. intros i x _. simpl. rewrite Nat.add_succ_r. reflexivity.
    + rewrite Hs, imap_cons, Nat.add_0_r. simpl.
      rewrite <- Z.add_assoc. do 3 f_equal.
      apply imap_ext. intros i x _. simpl. rewrite Nat.add_succ_r. reflexivity.
Qed.

End ServeBackoff.
(** C4.  When the listener fails transiently for each error of [errs] and
    then yields the connection [c], the accept loop returns [c] after
    reporting, for the [i]-th error, that error with the backoff
    [backoffAt i] and sleeping for that long, and nothing else: no sleep
    follows the last report.  The backoff starts at the floor of 5ms, is
    doubled after every failure up to the ceiling of 1s, so it stays
    between floor and ceiling and grows strictly while the double fits, and
    it is back at the floor once the connection is accepted.  In [Serve],
    whose callback prints the error and the backoff, this gives one log
    line per failure, a total sleep of the sum of the backoffs, and the
    dispatch of [c]. *)
Theorem Accept_transient_backoff (errs : list error) (c : Conn) (rest : list RawAccept) :
  AcceptLoop.Accept (map AcceptTemporary errs ++ AcceptConn c :: rest)
  = (Some (inl c), AcceptLoop.floor, rest,
     concat (imap (fun i e => [AcceptLoop.Report e (AcceptLoop.backoffAt i);
                                AcceptLoop.Sleep (AcceptLoop.backoffAt i)]) errs))
  /\ AcceptLoop.backoffAt 0 = AcceptLoop.floor
  /\ AcceptLoop.floor = 5000000 /\ AcceptLoop.ceiling = 1000000000
  /\ (forall i, AcceptLoop.backoffAt (S i)
                = Z.min (2 * AcceptLoop.backoffAt i) AcceptLoop.ceiling)
  /\ (forall i, AcceptLoop.floor <= AcceptLoop.backoffAt i <= AcceptLoop.ceiling)
  /\ (forall i, 2 * AcceptLoop.backoffAt i <= AcceptLoop.ceiling ->
                AcceptLoop.backoffAt (S i) = 2 * AcceptLoop.backoffAt i
                /\ AcceptLoop.backoffAt i < AcceptLoop.backoffAt (S i))
  /\ (forall (s : Server) (runtimeStack : Conn -> string),
       exists st,
         exec s runtimeStack (replicate (S (length errs)) RunMain)
           (start (map AcceptTemporary errs ++ AcceptConn c :: rest)) = Some st
         /\ output st
            = imap (fun i e => (sinkOf s, AcceptErrorMsg e (AcceptLoop.backoffAt i))) errs
         /\ slept st = foldr Z.add 0 (imap (fun i _ => AcceptLoop.backoffAt i) errs)
         /\ main st = MAccept AcceptLoop.floor
         /\ incoming st = rest
         /\ tasks st = [ {| conn := c; pc := THandler |} ]).
Proof.
  split; [exact (loop_transient 0 errs c rest) |].
  split; [reflexivity |]. split; [reflexivity |]. split; [reflexivity |].
  split; [exact backoffAt_succ |]. split; [exact backoffAt_bounds |].
  split.
  - intros i Hi. rewrite backoffAt_succ. pose proof (backoffAt_bounds i) as Hb.
    unfold AcceptLoop.floor in Hb. lia.
  - intros s runtimeStack.
    destruct (exec_transient s runtimeStack 0 errs c rest
                (start (map AcceptTemporary errs ++ AcceptConn c :: rest))
                eq_refl eq_refl)
      as (st & He & Hm & Hi & Ho & Hs & Ht & _).
    exists st. simpl in Ho, Hs, Ht. auto 10.
Qed.

(** ** Handlers *)

(** C9.  The method [ServeConn] of [HandlerFunc] calls the function on the
    connection and takes no context; its signature differs from the one
    the [Handler] interface asks for, so [HandlerFunc] does not implement
    [Handler]. *)
Theorem HandlerFunc_does_not_implement_Handler :
  (forall (f : HandlerFunc) (c : Conn), HandlerFunc_ServeConn f c = f c)
  /\ map mparams HandlerFunc_methods = [[net_Conn]]
  /\ map mparams Handler_interface = [[net_Conn; context_Context]]
  /\ implements HandlerFunc_methods Handler_interface = false.
Proof. repeat split. Qed.

Section ServerClaims.

Variable s : Server.
Variable runtimeStack : Conn -> string.

(** C2.  In every state [st] that [Serve] can reach from its entry: if
    the accept loop yields the fatal error [err], the next step leaves the
    loop with [err]; from there, when every task is run to its end (every
    handler returns or panics), the deferred [cancel()], [join.Wait()] and
    [lstn.Close()] make [Serve] return [err]; while [Serve] is in
    [join.Wait()] the context is cancelled, the listener is still open, and
    [Serve] does not move as long as the WaitGroup counter is not zero; and
    once [Serve] has returned [err], [err] is a fatal error that the
    listener yielded, [lstn.Close()] and [cancel()] have run, the counter is
    zero, and every task dispatched has been through its handler,
    [conn.Close()] and [join.Done()]: it has exited, or it has only its
    deferred recovering function left to run. *)
Theorem Serve_returns_after_drain l sched st err :
  exec s runtimeStack sched (start l) = Some st ->
  (forall backoff rest,
      main st = MAccept backoff -> incoming st = AcceptFatal err :: rest ->
      exists st', step s runtimeStack RunMain st = Some st' /\ main st' = MCancel err)
  /\ (main st = MCancel err ->
      exists st',
        exec s runtimeStack
          (RunMain :: drainSchedule 0 (tasks st) ++ [RunMain; RunMain]) st = Some st'
        /\ main st' = MReturned err)
  /\ (main st = MWait err ->
      ctxDone st = true
      /\ lstnClosed st = false
      /\ (join st <> 0 -> step s runtimeStack RunMain st = None))
  /\ (main st = MReturned err ->
      In (AcceptFatal err) l
      /\ lstnClosed st = true
      /\ ctxDone st = true
      /\ join st = 0
      /\ Forall (fun t => (pc t = TExited \/ exists p, pc t = TRecover p)
                          /\ In (conn t) (closedConns st)) (tasks st)).
Proof.
  intros Hexec.
  pose proof (Inv_exec s runtimeStack l sched _ _ (Inv_start l) Hexec) as HI.
  split; [| split; [| split]].
  - intros backoff rest Hm Hi. simpl. unfold stepMain. rewrite Hm, Hi. simpl. eauto.
  - intros Hm. exact (exec_shutdown s runtimeStack l st err HI Hm).
  - intros Hm. destruct HI as [_ _ _ HI]. unfold mainInv in HI. rewrite Hm in HI.
    destruct HI as (_ & Hl & Hx). repeat (split; [assumption |]).
    intros Hj. simpl. unfold stepMain. rewrite Hm.
    destruct (join st =? 0) eqn:E; [apply Z.eqb_eq in E; contradiction | reflexivity].
  - intros Hret. destruct HI as [Hj Hc _ Hm].
    unfold mainInv in Hm. rewrite Hret in Hm. destruct Hm as (Hf & Hl & Hx & H0).
    repeat (split; [assumption |]).
    rewrite H0 in Hj. symmetry in Hj. apply countInFlight_zero in Hj.
    rewrite Forall_forall in Hj, Hc |- *. intros t Ht.
    specialize (Hj t Ht). specialize (Hc t Ht).
    unfold connClosed in Hc. unfold inFlight in Hj.
    destruct (pc t); try discriminate; split; eauto.
Qed.

(** C3.  When the handler panics with [v] on the connection of the
    [i]-th task, the four steps of that task close the connection,
    decrement the WaitGroup counter and print one message with the remote
    address, [v] and the stack trace (cut to 64KiB): on the logger
    [ErrorLog] of the server when it has one, on the standard logger when
    [ErrorLog] is nil.  The accept goroutine, the listener and the context
    are left as they were: the panic does not reach [Serve], and if the
    listener has a connection ready, the next step of the accept goroutine
    dispatches it. *)
Theorem handler_panic_is_contained st i c v :
  tasks st !! i = Some {| conn := c; pc := THandler |} ->
  ServeConn (Server_Handler s) c (ctxDone st) = Panics v ->
  exists st',
    exec s runtimeStack [RunTask i; RunTask i; RunTask i; RunTask i] st = Some st'
    /\ tasks st' = <[i := {| conn := c; pc := TExited |}]> (tasks st)
    /\ closedConns st' = c :: closedConns st
    /\ join st' = join st - 1
    /\ output st'
       = output st
         ++ [(match ErrorLog s with
              | None => StdLog
              | Some logger => Custom logger
              end,
              PanicServingMsg (RemoteAddr c) v
                (strings.sliceTo (runtimeStack c) 65536))]
    /\ main st' = main st /\ incoming st' = incoming st
    /\ lstnClosed st' = lstnClosed st /\ ctxDone st' = ctxDone st
    /\ forall backoff c' rest,
         main st = MAccept backoff ->
         incoming st = AcceptConn c' :: rest ->
         exists st'',
           step s runtimeStack RunMain st' = Some st''
           /\ tasks st'' = tasks st' ++ [ {| conn := c'; pc := THandler |} ]
           /\ join st'' = join st' + 1
           /\ main st'' = MAccept AcceptLoop.floor.
Proof.
  intros Et Hpanic.
  pose proof (lookup_lt_Some _ _ _ Et) as Hlt.
  assert (Hat : forall p l', length l' = length (tasks st) ->
                  <[i := {| conn := c; pc := p |}]> l' !! i
                  = Some {| conn := c; pc := p |}).
  { intros p l' Hl. apply list_lookup_insert_eq. lia. }
  unfold exec, step, stepTask. rewrite Et. cbn [conn pc]. rewrite Hpanic.
  cbn [panicOf tasks setTasks]. rewrite Hat by reflexivity.
  cbn [conn pc tasks setTasks setClosedConns]. rewrite list_insert_insert_eq.
  rewrite Hat by reflexivity.
  cbn [conn pc tasks setTasks setJoin]. rewrite list_insert_insert_eq.
  rewrite Hat by reflexivity.
  cbn [conn pc]. unfold recover, logf.
  eexists; (split; [reflexivity |]);
    cbn; rewrite !list_insert_insert_eq;
    repeat (split; [reflexivity |]);
    intros backoff c' rest Hm Hi; unfold stepMain; cbn; rewrite Hm, Hi; cbn;
    eexists; repeat (split; [reflexivity |]); reflexivity.
Qed.

End ServerClaims.

Lemma Serve_returns_after_drain_witness :
  (exists st,
      exec sampleServer sampleStack [RunMain; RunMain; RunMain; RunMain; RunMain]
        (start sampleIncoming) = Some st
      /\ main st = MCancel errClosed
      /\ exists st',
           exec sampleServer sampleStack
             (RunMain :: drainSchedule 0 (tasks st) ++ [RunMain; RunMain]) st = Some st'
           /\ main st' = MReturned errClosed)
  /\ (exists st,
        exec sampleServer sampleStack
          [RunMain; RunMain; RunMain; RunMain; RunMain; RunMain; RunTask 0]
          (start sampleIncoming) = Some st
        /\ main st = MWait errClosed
        /\ join st = 3
        /\ ctxDone st = true
        /\ lstnClosed st = false
        /\ step sampleServer sampleStack RunMain st = None)
  /\ (exists st,
        exec sampleServer sampleStack earlyReturnSchedule (start sampleIncoming) = Some st
        /\ main st = MReturned errClosed
        /\ In (AcceptFatal errClosed) sampleIncoming
        /\ lstnClosed st = true
        /\ ctxDone st = true
        /\ join st = 0
        /\ Forall (fun t => (pc t = TExited \/ exists p, pc t = TRecover p)
                            /\ In (conn t) (closedConns st)) (tasks st)).
Proof.
  split; [| split].
  - eexists. split; [vm_compute; reflexivity |].
    match goal with
    | |- main ?st = _ /\ _ =>
        destruct (Serve_returns_after_drain sampleServer sampleStack sampleIncoming
                    [RunMain; RunMain; RunMain; RunMain; RunMain] st errClosed)
          as (_ & Hshutdown & _ & _); [vm_compute; reflexivity |]
    end.
    split; [reflexivity | apply Hshutdown; reflexivity].
  - eexists. split; [vm_compute; reflexivity |].
    match goal with
    | |- main ?st = _ /\ _ =>
        destruct (Serve_returns_after_drain sampleServer sampleStack sampleIncoming
                    [RunMain; RunMain; RunMain; RunMain; RunMain; RunMain; RunTask 0]
                    st errClosed)
          as (_ & _ & Hwait & _); [vm_compute; reflexivity |]
    end.
    destruct (Hwait eq_refl) as (Hctx & Hlstn & Hblocked).
    split; [reflexivity |]. split; [reflexivity |]. split; [exact Hctx |].
    split; [exact Hlstn |]. apply Hblocked. discriminate.
  - eexists. split; [vm_compute; reflexivity |].
    match goal with
    | |- main ?st = _ /\ _ =>
        destruct (Serve_returns_after_drain sampleServer sampleStack sampleIncoming
                    earlyReturnSchedule st errClosed)
          as (_ & _ & _ & Hreturned); [vm_compute; reflexivity |]
    end.
    split; [reflexivity | apply Hreturned; reflexivity].
Defined.

(** C2, as the claim words it, fails: [Serve] can return while a task is
    not finished.  On the sample run with the early return, [Serve] has
    returned with the counter at zero while the task of the second peer,
    whose handler panicked, still has its deferred recovering function to
    run, and the report of the panic has not been printed. *)
Lemma Serve_returns_before_panic_report :
  exists st,
    exec sampleServer sampleStack earlyReturnSchedule (start sampleIncoming) = Some st
    /\ main st = MReturned errClosed
    /\ join st = 0
    /\ tasks st !! 1%nat = Some {| conn := peer2; pc := TRecover (Some "boom"%string) |}
    /\ output st = [(StdLog, AcceptErrorMsg errTooManyFiles 5000000)]
    /\ ~ Forall (fun t => pc t = TExited) (tasks st).
Proof.
  eexists. split; [vm_compute; reflexivity |].
  repeat (split; [reflexivity |]).
  intros H. inversion H as [|t ts Ht _]. discriminate Ht.
Qed.

Lemma handler_panic_is_contained_witness :
  (exists st st',
      exec loggedServer sampleStack [RunMain; RunMain; RunMain] (start sampleIncoming)
      = Some st
      /\ exec loggedServer sampleStack [RunTask 1; RunTask 1; RunTask 1; RunTask 1] st
         = Some st'
      /\ map pc (tasks st') = [THandler; TExited]
      /\ closedConns st' = [peer2]
      /\ join st' = 1
      /\ output st'
         = [ (Custom "errors"%string, AcceptErrorMsg errTooManyFiles 5000000);
             (Custom "errors"%string,
              PanicServingMsg "10.0.0.2:4002" "boom" "goroutine serving 10.0.0.2:4002") ]
      /\ exists st'',
           step loggedServer sampleStack RunMain st' = Some st''
           /\ map conn (tasks st'') = [peer1; peer2; peer3]
           /\ join st'' = 2)
  /\ (exists st st',
        exec sampleServer sampleStack [RunMain; RunMain; RunMain] (start sampleIncoming)
        = Some st
        /\ exec sampleServer sampleStack [RunTask 1; RunTask 1; RunTask 1; RunTask 1] st
           = Some st'
        /\ output st'
           = [ (StdLog, AcceptErrorMsg errTooManyFiles 5000000);
               (StdLog,
                PanicServingMsg "10.0.0.2:4002" "boom" "goroutine serving 10.0.0.2:4002") ]).
Proof.
  split.
  - eexists.
    destruct (handler_panic_is_contained loggedServer sampleStack
                {| main := MAccept AcceptLoop.floor;
                   incoming := [AcceptConn peer3; AcceptFatal errClosed];
                   lstnClosed := false; ctxDone := false; join := 2;
                   tasks := [ {| conn := peer1; pc := THandler |};
                              {| conn := peer2; pc := THandler |} ];
                   closedConns := [];
                   output := [(Custom "errors"%string, AcceptErrorMsg errTooManyFiles 5000000)];
                   slept := 5000000 |}
                1%nat peer2 "boom" eq_refl eq_refl)
      as (st' & Hexec & Ht & Hc & Hj & Ho & Hm & Hi & Hl & Hx & Hnext).
    destruct (Hnext AcceptLoop.floor peer3 [AcceptFatal errClosed] eq_refl eq_refl)
      as (st'' & Hstep & Ht' & Hj' & Hm').
    exists st'. split; [vm_compute; reflexivity |]. split; [exact Hexec |].
    split; [rewrite Ht; reflexivity |]. split; [exact Hc |]. split; [exact Hj |].
    split; [exact Ho |].
    exists st''. split; [exact Hstep |]. split; [rewrite Ht', Ht; reflexivity |].
    rewrite Hj', Hj. reflexivity.
  - eexists.
    destruct (handler_panic_is_contained sampleServer sampleStack
                {| main := MAccept AcceptLoop.floor;
                   incoming := [AcceptConn peer3; AcceptFatal errClosed];
                   lstnClosed := false; ctxDone := false; join := 2;
                   tasks := [ {| conn := peer1; pc := THandler |};
                              {| conn := peer2; pc := THandler |} ];
                   closedConns := [];
                   output := [(StdLog, AcceptErrorMsg errTooManyFiles 5000000)];
                   slept := 5000000 |}
                1%nat peer2 "boom" eq_refl eq_refl)
      as (st' & Hexec & _ & _ & _ & Ho & _).
    exists st'. split; [vm_compute; reflexivity |]. split; [exact Hexec |]. exact Ho.
Defined.

(** * Further properties of the resolver *)

Section MoreStringFacts.
Import strings.

Lemma append_cons a s t : String a s +:+ t = String a (s +:+ t).
Proof. reflexivity. Qed.

Lemma append_nil t : "" +:+ t = t.
Proof. reflexivity. Qed.

Lemma HasPrefix_app p t : HasPrefix (p +:+ t) p = true.
Proof. apply HasPrefix_correct. exists t. reflexivity. Qed.

Lemma HasPrefix_single c d s : HasPrefix (String d s) (String c "") = Ascii.eqb c d.
Proof. change (Ascii.eqb c d && true = Ascii.eqb c d). apply andb_true_r. Qed.

Lemma drop_app s t : drop (String.length s) (s +:+ t) = t.
Proof.
  induction s; [destruct t; reflexivity |]. rewrite append_cons. simpl. assumption.
Qed.

Lemma length_append s t :
  String.length (s +:+ t) = (String.length s + String.length t)%nat.
Proof.
  induction s; [reflexivity |]. rewrite append_cons. simpl. congruence.
Qed.

Lemma sliceFrom_scheme proto rest :
  sliceFrom (proto +:+ "://" +:+ rest) (len proto + 3) = rest.
Proof.
  unfold sliceFrom, len.
  replace (Z.to_nat (Z.of_nat (String.length proto) + 3))
    with (String.length (proto +:+ "://")) by (rewrite length_append; simpl; lia).
  replace (proto +:+ "://" +:+ rest) with ((proto +:+ "://") +:+ rest).
  - apply drop_app.
  - induction proto as [|a p IH]; [reflexivity |].
    change (String a ((p +:+ "://") +:+ rest) = String a (p +:+ "://" +:+ rest)).
    rewrite IH. reflexivity.
Qed.

Lemma IndexByte_ge s c : -1 <= IndexByte s c.
Proof.
  induction s as [|d s IH]; simpl; [lia |].
  destruct (Ascii.eqb d c); [lia |].
  destruct (IndexByte s c <? 0) eqn:E; [lia | apply Z.ltb_ge in E; lia].
Qed.

Lemma IndexByte_negative_cons d s c :
  IndexByte (String d s) c < 0 -> Ascii.eqb d c = false /\ IndexByte s c < 0.
Proof.
  simpl. destruct (Ascii.eqb d c); [lia |].
  destruct (IndexByte s c <? 0) eqn:E; [apply Z.ltb_lt in E; auto |].
  apply Z.ltb_ge in E. lia.
Qed.

(** A string without the byte has no last occurrence of it either. *)
Lemma LastIndexByte_absent s c : IndexByte s c < 0 -> LastIndexByte s c = -1.
Proof.
  induction s as [|d s IH]; intros H; [reflexivity |].
  apply IndexByte_negative_cons in H as [Hd Hs].
  simpl. rewrite (IH Hs), Hd. reflexivity.
Qed.

Lemma LastIndexByte_ge s c : -1 <= LastIndexByte s c.
Proof.
  induction s as [|d s IH]; simpl; [lia |].
  destruct (0 <=? LastIndexByte s c) eqn:E; [apply Z.leb_le in E; lia |].
  destruct (Ascii.eqb d c); lia.
Qed.

Lemma LastIndexByte_head c s : 0 <= LastIndexByte (String c s) c.
Proof.
  simpl. destruct (0 <=? LastIndexByte s c) eqn:E; [apply Z.leb_le in E; lia |].
  rewrite Ascii.eqb_refl. lia.
Qed.

End MoreStringFacts.

Section HostPortFacts.
Import strings.

(** An address without a colon is a host without a port. *)
Lemma hostPort_no_colon address :
  IndexByte address ":" < 0 -> hostPort address = (address, ""%string).
Proof.
  intros H. unfold hostPort, net.SplitHostPort.
  rewrite (LastIndexByte_absent _ _ H).
  change (-1 <? 0) with true. unfold net.addrErr. cbv iota beta.
  destruct address as [|c s]; [reflexivity |].
  apply IndexByte_negative_cons in H as [Hc _].
  rewrite HasPrefix_single, Ascii.eqb_sym, Hc. reflexivity.
Qed.

(** An address that starts with a colon has an empty host, whether
    [net.SplitHostPort] accepts it or not. *)
Lemma hostPort_leading_colon s :
  fst (hostPort (String ":" s)) = ""%string.
Proof.
  unfold hostPort, net.SplitHostPort.
  pose proof (LastIndexByte_head ":" s) as Hi.
  set (i := LastIndexByte (String ":" s) ":") in *.
  destruct (i <? 0) eqn:E; [apply Z.ltb_lt in E; lia |].
  change (byteIs (String ":" s) 0 "[") with false. cbv iota.
  destruct (0 <=? IndexByte (sliceTo (String ":" s) i) ":") eqn:Ecolon; [reflexivity |].
  assert (Hhost : sliceTo (String ":" s) i = ""%string).
  { unfold sliceTo in *. destruct (Z.to_nat i); [reflexivity |].
    simpl in Ecolon. discriminate. }
  rewrite Hhost.
  destruct (0 <=? IndexByte (sliceFrom (String ":" s) 0) "["); [reflexivity |].
  destruct (0 <=? IndexByte (sliceFrom (String ":" s) 0) "]"); reflexivity.
Qed.

End HostPortFacts.

Section MoreResolverFacts.
Import strings.

Variable IsIP : string -> bool.
Variable os : OS.

Lemma Index_no_colon s : IndexByte s ":" < 0 -> Index s "://" < 0.
Proof.
  induction s as [|c s IH]; intros H; [reflexivity |].
  apply IndexByte_negative_cons in H as [Hc Hs].
  cbn [Index].
  replace (HasPrefix (String c s) "://") with false.
  - specialize (IH Hs). destruct (Index s "://" <? 0) eqn:E; [lia |].
    apply Z.ltb_ge in E. lia.
  - change (HasPrefix (String c s) "://") with (Ascii.eqb ":" c && HasPrefix s "//").
    rewrite Ascii.eqb_sym, Hc. reflexivity.
Qed.

Lemma schemeStep_no_scheme address protocols :
  Index address "://" < 0 -> schemeStep address protocols = (""%string, address, None).
Proof.
  intros H. unfold schemeStep.
  destruct (0 <=? Index address "://") eqn:E; [apply Z.leb_le in E; lia | reflexivity].
Qed.

Lemma matchProtocol_found proto rest protocols :
  In proto protocols ->
  Forall (fun p => Index p "://" < 0) protocols ->
  matchProtocol (proto +:+ "://" +:+ rest) protocols = (proto, rest).
Proof.
  intros Hin Hall.
  assert (Hproto : Index proto "://" < 0).
  { rewrite Forall_forall in Hall. apply Hall, list_elem_of_In, Hin. }
  induction Hall as [|p protocols Hp _ IH]; [contradiction |].
  cbn [matchProtocol].
  destruct (HasPrefix (proto +:+ "://" +:+ rest) (p +:+ "://")) eqn:E.
  - apply scheme_unique in E; [| assumption | assumption]. subst p.
    rewrite sliceFrom_scheme. reflexivity.
  - destruct Hin as [-> | Hin]; [| exact (IH Hin)].
    replace (proto +:+ "://" +:+ rest) with ((proto +:+ "://") +:+ rest) in E.
    + rewrite HasPrefix_app in E. discriminate.
    + clear. induction proto as [|a p IH]; [reflexivity |].
      change (String a ((p +:+ "://") +:+ rest) = String a (p +:+ "://" +:+ rest)).
      rewrite IH. reflexivity.
Qed.

Lemma schemeStep_explicit proto rest protocols :
  In proto protocols ->
  proto <> ""%string ->
  Forall (fun p => Index p "://" < 0) protocols ->
  schemeStep (proto +:+ "://" +:+ rest) protocols = (proto, rest, None).
Proof.
  intros Hin Hne Hall.
  assert (Hproto : Index proto "://" < 0).
  { rewrite Forall_forall in Hall. apply Hall, list_elem_of_In, Hin. }
  unfold schemeStep. rewrite (Index_scheme _ _ Hproto), (matchProtocol_found _ _ _ Hin Hall).
  pose proof (len_nonneg proto).
  destruct (0 <=? len proto) eqn:E; [| apply Z.leb_gt in E; lia].
  destruct (len proto =? 0) eqn:E0; [| reflexivity].
  apply Z.eqb_eq, len_zero in E0. contradiction.
Qed.

Lemma orDefault_nonempty network dflt :
  network <> ""%string -> orDefault network dflt = network.
Proof.
  intros H. unfold orDefault. destruct (len network =? 0) eqn:E; [| reflexivity].
  apply Z.eqb_eq, len_zero in E. contradiction.
Qed.

Lemma map_joinPort_empty (ifa : list string) : map (joinPort "") ifa = ifa.
Proof. induction ifa as [|a ifa IH]; simpl; [reflexivity | rewrite IH; reflexivity]. Qed.

Lemma InterfaceByName_empty : InterfaceByName os "" = inr errInvalidInterfaceName.
Proof. reflexivity. Qed.

(** The network of [classify] when the scheme fixed one. *)
Lemma classify_network network address dn du :
  network <> ""%string ->
  fst (fst (classify IsIP os network address dn du)) = network.
Proof.
  intros H. unfold classify. destruct (hostPort address) as [host port].
  destruct (IsIP host); [apply (orDefault_nonempty _ _ H) |].
  destruct (InterfaceByName os host) as [ifi | err]; [| apply (orDefault_nonempty _ _ H)].
  destruct (Addrs ifi) as [ifa [err|]]; [reflexivity | apply (orDefault_nonempty _ _ H)].
Qed.

End MoreResolverFacts.

Section TryEachSound.
Context {L : Type}.
Variable open : string -> string -> option L * option error.
Variable network : string.

(** What the results of the loop say about the calls it made. *)
Lemma tryEach_sound addrs lstn err l e calls :
  tryEach open network addrs lstn err = (l, e, calls) ->
  (exists rest, addrs = calls ++ rest)
  /\ (calls = [] -> addrs = [] /\ l = lstn /\ e = err)
  /\ (forall pre a, calls = pre ++ [a] ->
        open network a = (l, e) /\ Forall (fun x => snd (open network x) <> None) pre)
  /\ (e <> None -> calls = addrs).
Proof.
  revert lstn err l e calls. induction addrs as [|x addrs IH]; intros lstn err l e calls.
  - simpl. intros [= <- <- <-]. split; [exists []; reflexivity |].
    split; [auto |]. split; [| reflexivity].
    intros pre a H. destruct pre; discriminate.
  - simpl. destruct (open network x) as [l1 [e1|]] eqn:Ex.
    + destruct (tryEach open network addrs l1 (Some e1)) as [[l2 e2] calls2] eqn:Et.
      intros [= <- <- <-].
      destruct (IH _ _ _ _ _ Et) as ([rest Hrest] & Hnil & Hlast & Herr).
      split; [exists rest; simpl; f_equal; exact Hrest |].
      split; [discriminate |]. split.
      * intros pre a Hc. destruct pre as [|y pre]; simpl in Hc.
        -- injection Hc as <- Hc. destruct (Hnil Hc) as (_ & -> & ->).
           split; [exact Ex | constructor].
        -- injection Hc as <- Hc. destruct (Hlast _ _ Hc) as [Ha Hpre].
           split; [exact Ha |]. constructor; [rewrite Ex; simpl; discriminate | exact Hpre].
      * intros He. f_equal. exact (Herr He).
    + intros [= <- <- <-]. split; [exists addrs; reflexivity |].
      split; [discriminate |]. split; [| intros H; contradiction].
      intros pre a Hc. destruct pre as [|y [|z pre]]; try discriminate.
      injection Hc as <-. split; [exact Ex | constructor].
Qed.

End TryEachSound.

Section MoreResolverClaims.
Import strings.

Variable IsIP : string -> bool.
Variable os : OS.

(** X1.  An address [proto://rest] whose scheme is a non-empty allowed
    protocol is resolved as [rest] alone, and the network returned is
    [proto] whatever the classification of [rest] gives, also on error: the
    two defaults are not used. *)
Theorem resolveListen_explicit_scheme proto rest dn du protocols :
  In proto protocols ->
  proto <> ""%string ->
  Forall (fun p => Index p "://" < 0) protocols ->
  resolveListen IsIP os (proto +:+ "://" +:+ rest) dn du protocols
  = classify IsIP os proto rest dn du
  /\ fst (fst (resolveListen IsIP os (proto +:+ "://" +:+ rest) dn du protocols)) = proto.
Proof.
  intros Hin Hne Hall.
  assert (R : resolveListen IsIP os (proto +:+ "://" +:+ rest) dn du protocols
              = classify IsIP os proto rest dn du).
  { unfold resolveListen. rewrite (schemeStep_explicit _ _ _ Hin Hne Hall). reflexivity. }
  split; [exact R |]. rewrite R. apply classify_network. exact Hne.
Qed.

(** X2.  A resolution without error comes from one of two branches only:
    the host of the address (after the scheme is cut) is an IP literal and
    the only target is that address as written, or the host names an
    interface and the targets are its addresses with the port joined.  The
    network is the scheme, or the stream default; the unix-socket branch
    never ends without error. *)
Theorem resolveListen_success_cases address dn du protocols network addrs :
  resolveListen IsIP os address dn du protocols = (network, addrs, None) ->
  exists network0 address' host port,
    schemeStep address protocols = (network0, address', None)
    /\ hostPort address' = (host, port)
    /\ network = (if len network0 =? 0 then dn else network0)
    /\ ((IsIP host = true /\ addrs = [address'])
        \/ (IsIP host = false
            /\ exists ifi ifa,
                 InterfaceByName os host = inl ifi
                 /\ Addrs ifi = (ifa, None)
                 /\ addrs = map (fun a => if len port =? 0 then a
                                          else net.JoinHostPort a port) ifa)).
Proof.
  unfold resolveListen.
  destruct (schemeStep address protocols) as [[network0 address'] [err|]] eqn:Hs;
    [discriminate |].
  unfold classify. destruct (hostPort address') as [host port] eqn:Hhp.
  destruct (IsIP host) eqn:Hip.
  - intros [= <- <-]. exists network0, address', host, port. auto 10.
  - destruct (InterfaceByName os host) as [ifi | err] eqn:Hifi; [| discriminate].
    destruct (Addrs ifi) as [ifa [err|]] eqn:Hifa; [discriminate |].
    intros [= <- <-]. exists network0, address', host, port.
    repeat (split; [assumption || reflexivity |]). right. split; [assumption |].
    exists ifi, ifa. repeat (split; [assumption |]).
    apply map_ext. intros a. unfold joinPort. destruct (len port =? 0); reflexivity.
Qed.

(** X3.  An address without a colon that names an interface (and is not an
    IP literal) resolves, for every allow-list, to the stream default and to
    the addresses of the interface as the system gives them: no port is
    joined. *)
Theorem resolveListen_interface_no_port address dn du protocols ifi ifa :
  IndexByte address ":" < 0 ->
  IsIP address = false ->
  InterfaceByName os address = inl ifi ->
  Addrs ifi = (ifa, None) ->
  resolveListen IsIP os address dn du protocols = (dn, ifa, None).
Proof.
  intros Hcolon Hip Hifi Hifa. unfold resolveListen.
  rewrite (schemeStep_no_scheme _ _ (Index_no_colon _ Hcolon)).
  unfold classify. rewrite (hostPort_no_colon _ Hcolon), Hip, Hifi, Hifa.
  change (joinPort "") with (joinPort ""%string).
  rewrite map_joinPort_empty. reflexivity.
Qed.

(** X4.  Every address without scheme that starts with a colon (a port
    alone, or an IPv6 literal such as [::1]) has an empty host; when [IsIP]
    rejects the empty string, the resolution ends in the unix-socket branch
    with the error of [net.InterfaceByName("")], and [Listen] and
    [ListenPacket] fail without opening anything. *)
Theorem Listen_leading_colon_fails s :
  Index (String ":" s) "://" < 0 ->
  IsIP "" = false ->
  (forall dn du protocols,
      resolveListen IsIP os (String ":" s) dn du protocols
      = (du, [String ":" s], Some errInvalidInterfaceName))
  /\ ListenTraced IsIP os (String ":" s) = (None, Some errInvalidInterfaceName, [])
  /\ ListenPacketTraced IsIP os (String ":" s) = (None, Some errInvalidInterfaceName, []).
Proof.
  intros Hscheme Hip.
  assert (R : forall dn du protocols,
             resolveListen IsIP os (String ":" s) dn du protocols
             = (du, [String ":" s], Some errInvalidInterfaceName)).
  { intros dn du protocols. unfold resolveListen.
    rewrite (schemeStep_no_scheme _ _ Hscheme). unfold classify.
    pose proof (hostPort_leading_colon s) as Hhost.
    destruct (hostPort (String ":" s)) as [host port]. simpl in Hhost. subst host.
    rewrite Hip. reflexivity. }
  split; [exact R |].
  unfold ListenTraced, ListenPacketTraced. rewrite !R. split; reflexivity.
Qed.

(** X5.  An address without scheme whose host is neither an IP literal nor
    the name of an interface is resolved to itself with the unix-domain
    default, but together with the error of the interface lookup: [Listen]
    and [ListenPacket] return that error and open nothing. *)
Theorem Listen_neither_ip_nor_interface_fails address host port err :
  Index address "://" < 0 ->
  hostPort address = (host, port) ->
  IsIP host = false ->
  InterfaceByName os host = inr err ->
  (forall dn du protocols,
      resolveListen IsIP os address dn du protocols = (du, [address], Some err))
  /\ ListenTraced IsIP os address = (None, Some err, [])
  /\ ListenPacketTraced IsIP os address = (None, Some err, []).
Proof.
  intros Hscheme Hhp Hip Hifi.
  assert (R : forall dn du protocols,
             resolveListen IsIP os address dn du protocols = (du, [address], Some err)).
  { intros dn du protocols. unfold resolveListen.
    rewrite (schemeStep_no_scheme _ _ Hscheme).
    rewrite (classify_neither IsIP os _ _ _ _ _ _ _ Hhp Hip Hifi). reflexivity. }
  split; [exact R |].
  unfold ListenTraced, ListenPacketTraced. rewrite !R. split; reflexivity.
Qed.

(** X6.  When the host of an address without scheme names an interface and
    reading its addresses fails, the resolution returns that error with no
    target and with an empty network (no default is filled in), and [Listen]
    and [ListenPacket] return the error and open nothing. *)
Theorem Listen_interface_addresses_error address host port ifi ifa err :
  Index address "://" < 0 ->
  hostPort address = (host, port) ->
  IsIP host = false ->
  InterfaceByName os host = inl ifi ->
  Addrs ifi = (ifa, Some err) ->
  (forall dn du protocols,
      resolveListen IsIP os address dn du protocols = (""%string, [], Some err))
  /\ ListenTraced IsIP os address = (None, Some err, [])
  /\ ListenPacketTraced IsIP os address = (None, Some err, []).
Proof.
  intros Hscheme Hhp Hip Hifi Hifa.
  assert (R : forall dn du protocols,
             resolveListen IsIP os address dn du protocols = (""%string, [], Some err)).
  { intros dn du protocols. unfold resolveListen.
    rewrite (schemeStep_no_scheme _ _ Hscheme). unfold classify.
    rewrite Hhp, Hip, Hifi, Hifa. reflexivity. }
  split; [exact R |].
  unfold ListenTraced, ListenPacketTraced. rewrite !R. split; reflexivity.
Qed.

(** X7.  What [Listen] and [ListenPacket] return tells what they did, for
    resolved targets [addrs]: the addresses opened are a prefix of [addrs];
    if none was opened there was no target and the results are both nil; the
    results are those of the last address opened and every address before it
    failed; and an error means that every target was tried. *)
Theorem Listen_result_explains_calls address :
  (forall network addrs l e calls,
      resolveListen IsIP os address "tcp" "unix" streamProtocols = (network, addrs, None) ->
      ListenTraced IsIP os address = (l, e, calls) ->
      (exists rest, addrs = calls ++ rest)
      /\ (calls = [] -> addrs = [] /\ l = None /\ e = None)
      /\ (forall pre a, calls = pre ++ [a] ->
            netListen os network a = (l, e)
            /\ Forall (fun x => snd (netListen os network x) <> None) pre)
      /\ (e <> None -> calls = addrs))
  /\ (forall network addrs l e calls,
      resolveListen IsIP os address "udp" "unixdgram" packetProtocols
      = (network, addrs, None) ->
      ListenPacketTraced IsIP os address = (l, e, calls) ->
      (exists rest, addrs = calls ++ rest)
      /\ (calls = [] -> addrs = [] /\ l = None /\ e = None)
      /\ (forall pre a, calls = pre ++ [a] ->
            netListenPacket os network a = (l, e)
            /\ Forall (fun x => snd (netListenPacket os network x) <> None) pre)
      /\ (e <> None -> calls = addrs)).
Proof.
  split; intros network addrs l e calls Hres.
  - unfold ListenTraced. rewrite Hres. apply tryEach_sound.
  - unfold ListenPacketTraced. rewrite Hres. apply tryEach_sound.
Qed.

(** X8.  For an address without scheme whose host is an IP literal,
    [Listen] calls [net.Listen] once, with the network ["tcp"] and the
    address as written, and returns what it returns; [ListenPacket] does the
    same with [net.ListenPacket] and ["udp"]. *)
Theorem Listen_ip_literal_single_call address host port :
  Index address "://" < 0 ->
  hostPort address = (host, port) ->
  IsIP host = true ->
  ListenTraced IsIP os address = (netListen os "tcp" address, [address])
  /\ ListenPacketTraced IsIP os address = (netListenPacket os "udp" address, [address]).
Proof.
  intros Hscheme Hhp Hip.
  assert (R : forall dn du protocols,
             resolveListen IsIP os address dn du protocols = (dn, [address], None)).
  { intros dn du protocols. unfold resolveListen.
    rewrite (schemeStep_no_scheme _ _ Hscheme). unfold classify.
    rewrite Hhp, Hip. reflexivity. }
  unfold ListenTraced, ListenPacketTraced. rewrite !R. simpl. split.
  - destruct (netListen os "tcp" address) as [l [e|]]; reflexivity.
  - destruct (netListenPacket os "udp" address) as [l [e|]]; reflexivity.
Qed.

End MoreResolverClaims.

(** * Further properties of the server *)

Section MoreServerFacts.

Variable s : Server.
Variable runtimeStack : Conn -> string.

Lemma accepted_app l l' : accepted (l ++ l') = accepted l ++ accepted l'.
Proof.
  induction l as [|r l IH]; [reflexivity |].
  destruct r; simpl; rewrite IH; reflexivity.
Qed.

Lemma accepted_In c l : In c (accepted l) -> In (AcceptConn c) l.
Proof.
  induction l as [|r l IH]; simpl; [auto |].
  destruct r as [c' | e | e]; simpl; intros H; auto.
  destruct H as [-> | H]; auto.
Qed.

Lemma closedOf_app l l' : closedOf (l ++ l') = closedOf l ++ closedOf l'.
Proof.
  induction l as [|t l IH]; [reflexivity |].
  simpl. rewrite IH. destruct (pastClose t); reflexivity.
Qed.

(** A step that keeps a task on its side of [conn.Close()]. *)
Lemma closedOf_insert_same l i t t' :
  l !! i = Some t -> conn t' = conn t -> pastClose t' = pastClose t ->
  closedOf (<[i := t']> l) = closedOf l.
Proof.
  revert i. induction l as [|x l IH]; intros [|i] H Hc Hp; simpl in *; try discriminate.
  - injection H as ->. rewrite Hp, Hc. reflexivity.
  - rewrite (IH i H Hc Hp). reflexivity.
Qed.

(** The step over [conn.Close()]. *)
Lemma closedOf_insert_close l i t t' :
  l !! i = Some t -> conn t' = conn t -> pastClose t = false -> pastClose t' = true ->
  Permutation (conn t :: closedOf l) (closedOf (<[i := t']> l)).
Proof.
  revert i. induction l as [|x l IH]; intros [|i] H Hc Hp Hp'; simpl in *; try discriminate.
  - injection H as ->. rewrite Hp, Hp', Hc. reflexivity.
  - specialize (IH i H Hc Hp Hp'). destruct (pastClose x).
    + rewrite <- IH. apply perm_swap.
    + exact IH.
Qed.

Lemma map_conn_insert (l : list Task) i t t' :
  l !! i = Some t -> conn t' = conn t -> map conn (<[i := t']> l) = map conn l.
Proof.
  revert i. induction l as [|x l IH]; intros [|i] H Hc; simpl in *; try discriminate.
  - injection H as ->. rewrite Hc. reflexivity.
  - rewrite (IH i H Hc). reflexivity.
Qed.

Lemma length_take n str : (String.length (strings.take n str) <= n)%nat.
Proof.
  revert str. induction n as [|n IH]; intros [|c str]; simpl; try lia.
  specialize (IH str). lia.
Qed.

Lemma len_sliceTo str n : 0 <= n -> strings.len (strings.sliceTo str n) <= n.
Proof.
  intros Hn. unfold strings.len, strings.sliceTo.
  pose proof (length_take (Z.to_nat n) str). lia.
Qed.

Lemma countInFlight_le l : countInFlight l <= Z.of_nat (length l).
Proof.
  induction l as [|t l IH]; simpl; [lia |]. destruct (inFlight t); lia.
Qed.

Lemma Inv2_start l : Inv2 s runtimeStack l (start l).
Proof.
  split; simpl.
  - exists []. split; reflexivity.
  - reflexivity.
  - constructor.
  - constructor.
  - discriminate.
Qed.

Lemma Inv2_stepMain l st st' :
  Inv l st -> Inv2 s runtimeStack l st -> stepMain s st = Some st' ->
  Inv2 s runtimeStack l st'.
Proof.
  intros [_ _ _ Hm] [(done & Hl & Ho) Hc Hp Hout Hcancel]. unfold stepMain, mainInv in *.
  destruct (main st) as [b | e | e | e | e] eqn:Em.
  - destruct (incoming st) as [|r rest] eqn:Ei; [discriminate |].
    assert (Hdone : l = (done ++ [r]) ++ rest) by (rewrite <- app_assoc; exact Hl).
    destruct r as [c | e | e]; simpl; intros [= <-]; split; simpl; auto.
    + exists (done ++ [AcceptConn c]). split; [exact Hdone |].
      rewrite accepted_app, map_app, Ho. reflexivity.
    + rewrite closedOf_app. simpl. rewrite app_nil_r. exact Hc.
    + apply Forall_app. split; [exact Hp |]. constructor; [| constructor].
      intros v Hv. discriminate.
    + discriminate.
    + exists (done ++ [AcceptTemporary e]). split; [exact Hdone |].
      rewrite accepted_app. simpl. rewrite app_nil_r. exact Ho.
    + apply Forall_app. split; [exact Hout |]. constructor; [| constructor].
      split; [reflexivity |]. simpl. rewrite Hl. apply in_or_app. right. left. reflexivity.
    + discriminate.
    + exists (done ++ [AcceptFatal e]). split; [exact Hdone |].
      rewrite accepted_app. simpl. rewrite app_nil_r. exact Ho.
    + intros e' _. apply Hm.
  - intros [= <-]. split; simpl; eauto. discriminate.
  - destruct (join st =? 0); [| discriminate]. intros [= <-].
    split; simpl; eauto. discriminate.
  - intros [= <-]. split; simpl; eauto. discriminate.
  - discriminate.
Qed.

Lemma Inv2_stepTask l i st st' :
  Inv2 s runtimeStack l st -> stepTask s runtimeStack i st = Some st' ->
  Inv2 s runtimeStack l st'.
Proof.
  intros [(done & Hl & Ho) Hc Hp Hout Hcancel]. unfold stepTask.
  destruct (tasks st !! i) as [[c p]|] eqn:Et; [| discriminate].
  pose proof (Forall_lookup_1 _ _ _ _ Hp Et) as Hthis.
  assert (Hin : In (AcceptConn c) l).
  { rewrite Hl. apply in_or_app. left. apply accepted_In. rewrite <- Ho.
    apply (in_map conn) with (x := {| conn := c; pc := p |}).
    apply list_elem_of_In. eapply list_elem_of_lookup_2. exact Et. }
  simpl. destruct p as [| p | p | [err|] |]; intros [= <-]; split; simpl; eauto.
  - exists done. split; [exact Hl |]. erewrite map_conn_insert; [exact Ho | exact Et | reflexivity].
  - erewrite closedOf_insert_same; [exact Hc | exact Et | reflexivity | reflexivity].
  - apply Forall_insert; [exact Hp |]. unfold panicInFlight. simpl.
    intros v Hv. exists (ctxDone st).
    destruct (ServeConn (Server_Handler s) c (ctxDone st)); simpl in Hv; congruence.
  - exists done. split; [exact Hl |]. erewrite map_conn_insert; [exact Ho | exact Et | reflexivity].
  - etransitivity; [| eapply closedOf_insert_close; [exact Et | reflexivity ..]].
    simpl. constructor. exact Hc.
  - apply Forall_insert; [exact Hp | exact Hthis].
  - exists done. split; [exact Hl |]. erewrite map_conn_insert; [exact Ho | exact Et | reflexivity].
  - erewrite closedOf_insert_same; [exact Hc | exact Et | reflexivity | reflexivity].
  - apply Forall_insert; [exact Hp | exact Hthis].
  - exists done. split; [exact Hl |]. erewrite map_conn_insert; [exact Ho | exact Et | reflexivity].
  - erewrite closedOf_insert_same; [exact Hc | exact Et | reflexivity | reflexivity].
  - apply Forall_insert; [exact Hp |]. intros v Hv. discriminate.
  - apply Forall_app. split; [exact Hout |]. constructor; [| constructor].
    split; [reflexivity |]. simpl.
    destruct (Hthis err eq_refl) as [ctx Hctx]. exists c, ctx.
    repeat (split; [assumption || reflexivity |]).
    apply len_sliceTo. lia.
  - exists done. split; [exact Hl |]. erewrite map_conn_insert; [exact Ho | exact Et | reflexivity].
  - erewrite closedOf_insert_same; [exact Hc | exact Et | reflexivity | reflexivity].
  - apply Forall_insert; [exact Hp |]. intros v Hv. discriminate.
Qed.

Lemma closedOf_all_done l :
  Forall (fun t => inFlight t = false) l -> closedOf l = map conn l.
Proof.
  induction 1 as [|t l Ht _ IH]; [reflexivity |]. simpl. rewrite IH.
  unfold inFlight in Ht. unfold pastClose. destruct (pc t); try discriminate; reflexivity.
Qed.

(** Both invariants hold in every state that [Serve] reaches. *)
Lemma Inv2_exec l sched st st' :
  Inv l st -> Inv2 s runtimeStack l st ->
  exec s runtimeStack sched st = Some st' ->
  Inv l st' /\ Inv2 s runtimeStack l st'.
Proof.
  revert st. induction sched as [|a sched IH]; intros st H H2; simpl.
  - intros [= <-]. auto.
  - destruct (step s runtimeStack a st) as [st1|] eqn:E; [| discriminate].
    destruct a as [|i]; simpl in E; apply IH.
    + exact (Inv_stepMain s _ _ _ H E).
    + exact (Inv2_stepMain _ _ _ H H2 E).
    + exact (Inv_stepTask s runtimeStack _ _ _ _ H E).
    + exact (Inv2_stepTask _ _ _ _ H2 E).
Qed.

Lemma reachable_Inv l sched st :
  exec s runtimeStack sched (start l) = Some st ->
  Inv l st /\ Inv2 s runtimeStack l st.
Proof. apply Inv2_exec; [apply Inv_start | apply Inv2_start]. Qed.

End MoreServerFacts.

Section MoreServerClaims.

Variable s : Server.
Variable runtimeStack : Conn -> string.

(** X9.  In every state that [Serve] reaches, the WaitGroup counter is the
    number of dispatched tasks that have not yet called [join.Done()]; it is
    never negative (so [join.Done()] never panics) and never exceeds the
    number of connections dispatched. *)
Theorem WaitGroup_counts_tasks_in_flight l sched st :
  exec s runtimeStack sched (start l) = Some st ->
  join st = countInFlight (tasks st)
  /\ 0 <= join st <= Z.of_nat (length (tasks st)).
Proof.
  intros Hexec. destruct (reachable_Inv s runtimeStack l sched st Hexec) as [[Hj _ _ _] _].
  split; [exact Hj |]. rewrite Hj.
  split; [apply countInFlight_nonneg | apply countInFlight_le].
Qed.

(** X10.  In every state that [Serve] reaches, the listener has yielded a
    prefix [done] of its outcomes, and the tasks started are, in order,
    exactly the connections of [done]: every accepted connection is
    dispatched once, in the order of acceptance, and transient errors
    dispatch nothing. *)
Theorem dispatch_in_accept_order l sched st :
  exec s runtimeStack sched (start l) = Some st ->
  exists done, l = done ++ incoming st /\ map conn (tasks st) = accepted done.
Proof.
  intros Hexec. destruct (reachable_Inv s runtimeStack l sched st Hexec) as [_ [H _ _ _ _]].
  exact H.
Qed.

(** X11.  In every state that [Serve] reaches, the connections closed so far
    are, up to order, the connections of the tasks that are past their
    deferred [conn.Close()]: a connection is closed once, by its own task,
    after its handler has ended, and [Serve] closes none itself. *)
Theorem closed_connections_are_finished_tasks l sched st :
  exec s runtimeStack sched (start l) = Some st ->
  Permutation (closedConns st) (closedOf (tasks st)).
Proof.
  intros Hexec. destruct (reachable_Inv s runtimeStack l sched st Hexec) as [_ [_ H _ _ _]].
  exact H.
Qed.

(** X12.  The context handed to the handlers is cancelled only after the
    accept loop has ended: in every reachable state where [cancel()] has
    run, the listener had yielded a fatal error [e] and [Serve] is waiting
    for the tasks, closing the listener, or has returned [e]. *)
Theorem context_cancelled_after_fatal_only l sched st :
  exec s runtimeStack sched (start l) = Some st ->
  ctxDone st = true ->
  exists e,
    In (AcceptFatal e) l
    /\ (main st = MWait e \/ main st = MClose e \/ main st = MReturned e).
Proof.
  intros Hexec Hdone.
  destruct (reachable_Inv s runtimeStack l sched st Hexec) as [[_ _ _ Hm] [_ _ _ _ Hc]].
  unfold mainInv in Hm. destruct (main st) as [b | e | e | e | e] eqn:Em.
  - destruct Hm as [_ Hm]. congruence.
  - specialize (Hc e eq_refl). congruence.
  - exists e. destruct Hm as (Hf & _). auto.
  - exists e. destruct Hm as (Hf & _). auto.
  - exists e. destruct Hm as (Hf & _). auto.
Qed.

(** X13.  Without a fatal error from the listener [Serve] does not stop:
    whatever the handlers do (panics included) and however many transient
    errors occur, it stays in its accept loop with the listener open and the
    context not cancelled. *)
Theorem Serve_keeps_accepting_without_fatal l sched st :
  (forall e, ~ In (AcceptFatal e) l) ->
  exec s runtimeStack sched (start l) = Some st ->
  exists backoff,
    main st = MAccept backoff /\ lstnClosed st = false /\ ctxDone st = false.
Proof.
  intros Hno Hexec.
  destruct (reachable_Inv s runtimeStack l sched st Hexec) as [[_ _ _ Hm] _].
  unfold mainInv in Hm. destruct (main st) as [b | e | e | e | e];
    [exists b; destruct Hm; auto | | | |]; destruct Hm as [Hf _]; elim (Hno e Hf).
Qed.


(** X16.  When [Serve] has returned, the connections closed are, up to
    order, exactly the connections that the listener yielded before its
    fatal error: each was dispatched, and closed once. *)
Theorem Serve_return_closes_every_accepted_connection l sched st err :
  exec s runtimeStack sched (start l) = Some st ->
  main st = MReturned err ->
  exists done,
    l = done ++ incoming st
    /\ map conn (tasks st) = accepted done
    /\ Permutation (closedConns st) (accepted done).
Proof.
  intros Hexec Hret.
  destruct (reachable_Inv s runtimeStack l sched st Hexec)
    as [[Hj _ _ Hm] [(done & Hl & Ho) Hc _ _ _]].
  exists done. split; [exact Hl |]. split; [exact Ho |].
  unfold mainInv in Hm. rewrite Hret in Hm. destruct Hm as (_ & _ & _ & H0).
  rewrite H0 in Hj. symmetry in Hj. apply countInFlight_zero in Hj.
  rewrite Hc, (closedOf_all_done _ Hj), Ho. reflexivity.
Qed.

End MoreServerClaims.

(** X15.  The servers built by the package-level [Serve] and
    [ListenAndServe] have no [ErrorLog]: everything they print goes to the
    standard logger. *)
Theorem packageServer_logs_to_standard_logger addr handler runtimeStack l sched st :
  exec (packageServer addr handler) runtimeStack sched (start l) = Some st ->
  Forall (fun line => fst line = StdLog) (output st).
Proof.
  intros Hexec.
  destruct (reachable_Inv _ runtimeStack l sched st Hexec) as [_ [_ _ _ H _]].
  eapply Forall_impl; [exact H |]. intros line [Hsink _]. exact Hsink.
Qed.

(** * ListenAndServe *)

(** X18.  [ListenAndServe] does not check the listener it gets from
    [Listen]: for an address without scheme whose host names an interface
    without any address, [Listen] returns no error and no listener, and both
    the method and the package-level function go on to call [Serve] with a
    nil listener. *)
Theorem ListenAndServe_interface_without_address IsIP os s handler host port ifi :
  strings.Index (Addr s) "://" < 0 ->
  hostPort (Addr s) = (host, port) ->
  IsIP host = false ->
  InterfaceByName os host = inl ifi ->
  Addrs ifi = ([], None) ->
  Listen IsIP os (Addr s) = (None, None)
  /\ Server_ListenAndServe IsIP os s = CallsServe None
  /\ ListenAndServe IsIP os (Addr s) handler = CallsServe None.
Proof.
  intros Hscheme Hhp Hip Hifi Hifa.
  assert (L : Listen IsIP os (Addr s) = (None, None)).
  { unfold Listen, ListenTraced, resolveListen.
    rewrite (schemeStep_no_scheme _ _ Hscheme). unfold classify.
    rewrite Hhp, Hip, Hifi, Hifa. reflexivity. }
  split; [exact L |].
  unfold ListenAndServe, Server_ListenAndServe. simpl. rewrite L. split; reflexivity.
Qed.

Lemma ListenAndServe_interface_without_address_witness :
  Listen ip.IsIP sampleOS "dummy0:80" = (None, None)
  /\ Server_ListenAndServe ip.IsIP sampleOS
       {| Addr := "dummy0:80"; Server_Handler := Server_Handler sampleServer;
          ErrorLog := Some "errors"%string |} = CallsServe None
  /\ ListenAndServe ip.IsIP sampleOS "dummy0:80" (Server_Handler sampleServer)
     = CallsServe None.
Proof.
  apply (ListenAndServe_interface_without_address ip.IsIP sampleOS
           {| Addr := "dummy0:80"; Server_Handler := Server_Handler sampleServer;
              ErrorLog := Some "errors"%string |}
           (Server_Handler sampleServer) "dummy0" "80"
           {| Name := "dummy0"; Addrs := ([], None) |}); reflexivity.
Defined.

(** ** The further properties on the sample host and the sample run *)

Lemma resolveListen_explicit_scheme_witness :
  resolveListen ip.IsIP sampleOS "tcp6://[::1]:0" "tcp" "unix" streamProtocols
  = classify ip.IsIP sampleOS "tcp6" "[::1]:0" "tcp" "unix"
  /\ fst (fst (resolveListen ip.IsIP sampleOS "tcp6://[::1]:0" "tcp" "unix" streamProtocols))
     = "tcp6"%string.
Proof.
  apply (resolveListen_explicit_scheme ip.IsIP sampleOS "tcp6" "[::1]:0" "tcp" "unix"
           streamProtocols).
  - unfold streamProtocols. simpl. auto.
  - discriminate.
  - unfold streamProtocols. repeat constructor.
Defined.

Lemma resolveListen_success_cases_witness :
  exists network0 address' host port,
    schemeStep "udp://127.0.0.1:53" packetProtocols = (network0, address', None)
    /\ hostPort address' = (host, port)
    /\ "udp"%string = (if strings.len network0 =? 0 then "udp"%string else network0)
    /\ ((ip.IsIP host = true /\ ["127.0.0.1:53"%string] = [address'])
        \/ (ip.IsIP host = false
            /\ exists ifi ifa,
                 InterfaceByName sampleOS host = inl ifi
                 /\ Addrs ifi = (ifa, None)
                 /\ ["127.0.0.1:53"%string]
                    = map (fun a => if strings.len port =? 0 then a
                                    else net.JoinHostPort a port) ifa)).
Proof.
  apply (resolveListen_success_cases ip.IsIP sampleOS "udp://127.0.0.1:53" "udp" "unixdgram"
           packetProtocols "udp" ["127.0.0.1:53"%string]).
  reflexivity.
Defined.

Lemma resolveListen_interface_no_port_witness :
  resolveListen ip.IsIP sampleOS "eth0" "tcp" "unix" streamProtocols
  = ("tcp"%string, ["192.168.1.10/24"; "fe80::1/64"]%string, None).
Proof.
  apply (resolveListen_interface_no_port ip.IsIP sampleOS "eth0" "tcp" "unix" streamProtocols
           {| Name := "eth0"; Addrs := (["192.168.1.10/24"; "fe80::1/64"]%string, None) |});
    reflexivity.
Defined.

Lemma Listen_leading_colon_fails_witness :
  (forall dn du protocols,
      resolveListen ip.IsIP sampleOS "::1" dn du protocols
      = (du, ["::1"%string], Some errInvalidInterfaceName))
  /\ ListenTraced ip.IsIP sampleOS "::1" = (None, Some errInvalidInterfaceName, [])
  /\ ListenPacketTraced ip.IsIP sampleOS "::1" = (None, Some errInvalidInterfaceName, []).
Proof.
  apply (Listen_leading_colon_fails ip.IsIP sampleOS ":1"); reflexivity.
Defined.

Lemma Listen_neither_ip_nor_interface_fails_witness :
  (forall dn du protocols,
      resolveListen ip.IsIP sampleOS "/tmp/sock.s" dn du protocols
      = (du, ["/tmp/sock.s"%string], Some errNoSuchInterface))
  /\ ListenTraced ip.IsIP sampleOS "/tmp/sock.s" = (None, Some errNoSuchInterface, [])
  /\ ListenPacketTraced ip.IsIP sampleOS "/tmp/sock.s" = (None, Some errNoSuchInterface, []).
Proof.
  apply (Listen_neither_ip_nor_interface_fails ip.IsIP sampleOS "/tmp/sock.s"
           "/tmp/sock.s" ""); reflexivity.
Defined.

Lemma Listen_interface_addresses_error_witness :
  (forall dn du protocols,
      resolveListen ip.IsIP brokenOS "wg0:51820" dn du protocols
      = (""%string, [], Some (SyscallError "netlink: permission denied")))
  /\ ListenTraced ip.IsIP brokenOS "wg0:51820"
     = (None, Some (SyscallError "netlink: permission denied"), [])
  /\ ListenPacketTraced ip.IsIP brokenOS "wg0:51820"
     = (None, Some (SyscallError "netlink: permission denied"), []).
Proof.
  apply (Listen_interface_addresses_error ip.IsIP brokenOS "wg0:51820" "wg0" "51820"
           {| Name := "wg0"; Addrs := ([], Some (SyscallError "netlink: permission denied")) |}
           []); reflexivity.
Defined.

Lemma Listen_result_explains_calls_witness :
  (exists rest,
      ["192.168.1.10/24:80"; "[fe80::1/64]:80"]%string
      = ["192.168.1.10/24:80"; "[fe80::1/64]:80"]%string ++ rest)
  /\ netListen sampleOS "tcp" "[fe80::1/64]:80" = (Some {| lfd := 3 |}, None)
  /\ Forall (fun x => snd (netListen sampleOS "tcp" x) <> None) ["192.168.1.10/24:80"%string].
Proof.
  destruct (Listen_result_explains_calls ip.IsIP sampleOS "eth0:80") as [HL _].
  destruct (HL "tcp"%string ["192.168.1.10/24:80"; "[fe80::1/64]:80"]%string
              (Some {| lfd := 3 |}) None
              ["192.168.1.10/24:80"; "[fe80::1/64]:80"]%string eq_refl eq_refl)
    as (Hprefix & _ & Hlast & _).
  split; [exact Hprefix |].
  exact (Hlast ["192.168.1.10/24:80"%string] "[fe80::1/64]:80"%string eq_refl).
Defined.

Lemma Listen_ip_literal_single_call_witness :
  ListenTraced ip.IsIP sampleOS "127.0.0.1:80"
  = (netListen sampleOS "tcp" "127.0.0.1:80", ["127.0.0.1:80"%string])
  /\ ListenPacketTraced ip.IsIP sampleOS "127.0.0.1:80"
     = (netListenPacket sampleOS "udp" "127.0.0.1:80", ["127.0.0.1:80"%string]).
Proof.
  apply (Listen_ip_literal_single_call ip.IsIP sampleOS "127.0.0.1:80" "127.0.0.1" "80");
    reflexivity.
Defined.

Lemma WaitGroup_counts_tasks_in_flight_witness :
  exists st,
    exec sampleServer sampleStack
      [RunMain; RunMain; RunMain; RunTask 0; RunTask 0; RunTask 0; RunTask 1]
      (start sampleIncoming) = Some st
    /\ join st = countInFlight (tasks st)
    /\ 0 <= join st <= Z.of_nat (length (tasks st)).
Proof.
  eexists. split; [vm_compute; reflexivity |].
  apply (WaitGroup_counts_tasks_in_flight sampleServer sampleStack sampleIncoming
           [RunMain; RunMain; RunMain; RunTask 0; RunTask 0; RunTask 0; RunTask 1]).
  vm_compute. reflexivity.
Defined.

Lemma dispatch_in_accept_order_witness :
  exists st,
    exec sampleServer sampleStack [RunMain; RunMain; RunMain; RunTask 1; RunMain]
      (start sampleIncoming) = Some st
    /\ exists done,
         sampleIncoming = done ++ incoming st /\ map conn (tasks st) = accepted done.
Proof.
  eexists. split; [vm_compute; reflexivity |].
  apply (dispatch_in_accept_order sampleServer sampleStack sampleIncoming
           [RunMain; RunMain; RunMain; RunTask 1; RunMain]).
  vm_compute. reflexivity.
Defined.

Lemma closed_connections_are_finished_tasks_witness :
  exists st,
    exec sampleServer sampleStack
      [RunMain; RunMain; RunMain; RunTask 1; RunTask 1; RunTask 0; RunMain]
      (start sampleIncoming) = Some st
    /\ Permutation (closedConns st) (closedOf (tasks st)).
Proof.
  eexists. split; [vm_compute; reflexivity |].
  apply (closed_connections_are_finished_tasks sampleServer sampleStack sampleIncoming
           [RunMain; RunMain; RunMain; RunTask 1; RunTask 1; RunTask 0; RunMain]).
  vm_compute. reflexivity.
Defined.

Lemma context_cancelled_after_fatal_only_witness :
  exists st,
    exec sampleServer sampleStack [RunMain; RunMain; RunMain; RunMain; RunMain; RunMain]
      (start sampleIncoming) = Some st
    /\ ctxDone st = true
    /\ exists e,
         In (AcceptFatal e) sampleIncoming
         /\ (main st = MWait e \/ main st = MClose e \/ main st = MReturned e).
Proof.
  eexists. split; [vm_compute; reflexivity |]. split; [reflexivity |].
  apply (context_cancelled_after_fatal_only sampleServer sampleStack sampleIncoming
           [RunMain; RunMain; RunMain; RunMain; RunMain; RunMain]).
  - vm_compute. reflexivity.
  - reflexivity.
Defined.

Lemma Serve_keeps_accepting_without_fatal_witness :
  exists st,
    exec sampleServer sampleStack
      [RunMain; RunMain; RunMain; RunTask 1; RunTask 1; RunTask 1; RunTask 1]
      (start [AcceptConn peer1; AcceptTemporary errTooManyFiles; AcceptConn peer2])
    = Some st
    /\ exists backoff,
         main st = MAccept backoff /\ lstnClosed st = false /\ ctxDone st = false.
Proof.
  eexists. split; [vm_compute; reflexivity |].
  apply (Serve_keeps_accepting_without_fatal sampleServer sampleStack
           [AcceptConn peer1; AcceptTemporary errTooManyFiles; AcceptConn peer2]
           [RunMain; RunMain; RunMain; RunTask 1; RunTask 1; RunTask 1; RunTask 1]).
  - intros e [H | [H | [H | []]]]; discriminate H.
  - vm_compute. reflexivity.
Defined.


Lemma packageServer_logs_to_standard_logger_witness :
  exists st,
    exec (packageServer ":9000" (Server_Handler sampleServer)) sampleStack sampleSchedule
      (start sampleIncoming) = Some st
    /\ length (output st) = 2%nat
    /\ Forall (fun line => fst line = StdLog) (output st).
Proof.
  eexists. split; [vm_compute; reflexivity |]. split; [reflexivity |].
  apply (packageServer_logs_to_standard_logger ":9000" (Server_Handler sampleServer)
           sampleStack sampleIncoming sampleSchedule).
  vm_compute. reflexivity.
Defined.

Lemma Serve_return_closes_every_accepted_connection_witness :
  exists st,
    exec sampleServer sampleStack sampleSchedule (start sampleIncoming) = Some st
    /\ main st = MReturned errClosed
    /\ exists done,
         sampleIncoming = done ++ incoming st
         /\ map conn (tasks st) = accepted done
         /\ Permutation (closedConns st) (accepted done).
Proof.
  eexists. split; [vm_compute; reflexivity |]. split; [reflexivity |].
  apply (Serve_return_closes_every_accepted_connection sampleServer sampleStack
           sampleIncoming sampleSchedule _ errClosed).
  - vm_compute. reflexivity.
  - reflexivity.
Defined.

Lemma listener_closed_last_witness :
  exists st,
    exec sampleServer sampleStack sampleSchedule (start sampleIncoming) = Some st
    /\ lstnClosed st = true
    /\ exists err, main st = MReturned err.
Proof.
  eexists. split; [vm_compute; reflexivity |]. split; [reflexivity |].
  apply (listener_closed_last sampleServer sampleStack sampleIncoming sampleSchedule).
  - vm_compute. reflexivity.
  - reflexivity.
Defined.
